(** * The editor picker of the workbench (vs/workbench/browser/parts/editor/editorPicker.ts)

    A shallow embedding of [EditorPickerEntry], [BaseEditorPicker],
    [ActiveEditorGroupPicker] and [AllEditorsPicker], and the properties of
    the filter / sort / group pipeline, of the score cache and of the
    auto-focus policies.

    Conventions of the embedding:
    - a JavaScript object that is compared by reference (an editor group)
      carries its identity in a field [ref];
    - a field that JavaScript leaves [undefined] until a setter runs is an
      [option], [None] standing for "never set";
    - the picker's only mutable field, [scorerCache], is threaded through
      the cache monad [M]; the world outside the picker (the editor groups
      that open editors) is a state of an abstract type;
    - JavaScript truthiness is spelled out by [truthy] (strings) and
      [truthyNum] (numbers). *)

From Stdlib Require Import ZArith Lia Ascii String List Permutation Sorted.
From stdpp Require Import base option list strings gmap.

Local Open Scope string_scope.
Local Open Scope list_scope.

(** ** JavaScript truthiness *)

Definition truthy (s : string) : bool :=
  match s with
  | EmptyString => false
  | String _ _ => true
  end.

Definition truthyNum (z : Z) : bool := negb (z =? 0)%Z.

(** An object reference that may be [undefined] or [null]. *)
Definition truthyObj {A} (o : option A) : bool :=
  match o with
  | Some _ => true
  | None => false
  end.

(** ** The fuzzy scorer (vs/base/parts/quickopen/common/quickOpenScorer) *)

Module Scorer.

Record IMatch := { matchStart : nat; matchEnd : nat }.

Record IItemScore := {
  score : Z;
  labelMatch : list IMatch;
  descriptionMatch : list IMatch
}.

Record IPreparedQuery := {
  value : string;
  lowercase : string
}.

(** What an item accessor exposes of an item of type [T]. *)
Record IItemAccessor (T : Type) := {
  getItemLabel : T -> string;
  getItemDescription : T -> string;
  getItemPath : T -> string
}.
Arguments getItemLabel {T} _ _.
Arguments getItemDescription {T} _ _.
Arguments getItemPath {T} _ _.

(** The scorer sees an item through its accessor only. *)
Record ItemView := {
  viewLabel : string;
  viewDescription : string;
  viewPath : string
}.

Definition viewOf {T} (accessor : IItemAccessor T) (item : T) : ItemView :=
  {| viewLabel := getItemLabel accessor item;
     viewDescription := getItemDescription accessor item;
     viewPath := getItemPath accessor item |}.

(** [ScorerCache]: an object used as a map from strings to item scores
    (the picker creates it with [Object.create(null)]). *)
Abbreviation ScorerCache := (gmap string IItemScore).

(** *** The cache monad: computations that read and update the cache *)

Definition M (A : Type) : Type := ScorerCache -> A * ScorerCache.

Definition ret {A} (a : A) : M A := fun cache => (a, cache).

Definition bind {A B} (m : M A) (k : A -> M B) : M B :=
  fun cache => let (a, cache') := m cache in k a cache'.

Definition getCache : M ScorerCache := fun cache => (cache, cache).

Definition putCache (cache' : ScorerCache) : M unit := fun _ => (tt, cache').

Declare Scope cache_scope.
Delimit Scope cache_scope with cache.
Notation "x <- m ;; k" := (bind m (fun x => k))
  (at level 100, m at next level, right associativity) : cache_scope.

(** *** Query preparation *)

Definition isWhitespace (c : ascii) : bool :=
  match c with
  | " "%char | "009"%char | "010"%char | "011"%char | "012"%char | "013"%char => true
  | _ => false
  end.

Fixpoint whitespaceOnly (s : string) : bool :=
  match s with
  | EmptyString => true
  | String c rest => isWhitespace c && whitespaceOnly rest
  end.

Fixpoint trimStart (s : string) : string :=
  match s with
  | EmptyString => EmptyString
  | String c rest => if isWhitespace c then trimStart rest else s
  end.

Fixpoint trimEnd (s : string) : string :=
  match s with
  | EmptyString => EmptyString
  | String c rest =>
      match trimEnd rest with
      | EmptyString => if isWhitespace c then EmptyString else String c EmptyString
      | kept => String c kept
      end
  end.

Definition trim (s : string) : string := trimEnd (trimStart s).

Definition toLowerChar (c : ascii) : ascii :=
  let n := nat_of_ascii c in
  if (65 <=? n)%nat && (n <=? 90)%nat then ascii_of_nat (n + 32) else c.

Fixpoint toLowerCase (s : string) : string :=
  match s with
  | EmptyString => EmptyString
  | String c rest => String (toLowerChar c) (toLowerCase rest)
  end.

(** Modelled from the spec: [prepareQuery] lives in quickOpenScorer.ts,
    which is not part of the picker's file.  The spec describes the
    prepared query as the raw search text "trimmed, case-normalized for
    matching"; an empty or whitespace-only text prepares to the empty
    value. *)
Definition prepareQuery (searchValue : string) : IPreparedQuery :=
  let value := trim searchValue in
  {| value := value; lowercase := toLowerCase value |}.

(** The three functions of the scorer the embedding leaves abstract: the
    key under which a score is cached, the scoring itself, and the
    comparison of two scored items (which consults the cache). *)
Class FuzzyScorer := {
  cacheHash : ItemView -> IPreparedQuery -> bool -> string;
  doScoreItem : ItemView -> IPreparedQuery -> bool -> IItemScore;
  doCompareItems : ItemView -> ItemView -> IPreparedQuery -> bool -> ScorerCache -> Z
}.

Section WithScorer.
Context {scorer : FuzzyScorer}.

(** Modelled from the spec: [scoreItem] lives in quickOpenScorer.ts.
    The spec: "compute a fuzzy match score ... using the ScoreCache
    (look up by (entry, query); on miss, compute and store)". *)
Definition scoreItem {T} (item : T) (query : IPreparedQuery) (fuzzy : bool)
    (accessor : IItemAccessor T) : M IItemScore :=
  fun cache =>
    let cacheKey := cacheHash (viewOf accessor item) query fuzzy in
    match cache !! cacheKey with
    | Some cached => (cached, cache)
    | None =>
        let itemScore := doScoreItem (viewOf accessor item) query fuzzy in
        (itemScore, <[cacheKey := itemScore]> cache)
    end.

(** Modelled from the spec: [compareItemsByScore] lives in
    quickOpenScorer.ts.  The spec: "compare(entryA, entryB, query,
    cache) -> ordering", "deterministic and cache-aware"; a negative
    result puts the first item first. *)
Definition compareItemsByScore {T} (itemA itemB : T) (query : IPreparedQuery)
    (fuzzy : bool) (accessor : IItemAccessor T) (cache : ScorerCache) : Z :=
  doCompareItems (viewOf accessor itemA) (viewOf accessor itemB) query fuzzy cache.
End WithScorer.

End Scorer.

Import Scorer.
Local Open Scope cache_scope.

(** ** The quick open framework (vs/base/parts/quickopen/common/quickOpen) *)

Inductive Mode := PREVIEW | OPEN | OPEN_IN_BACKGROUND.

(** [IAutoFocus]: every property is optional. *)
Record IAutoFocus := {
  autoFocusFirstEntry : option bool;
  autoFocusSecondEntry : option bool;
  autoFocusLastEntry : option bool
}.

Record ResolvedKeybindingPart := {
  ctrlKey : bool;
  shiftKey : bool;
  altKey : bool;
  metaKey : bool
}.

(** [getParts] answers the first part and the chord part, the latter
    [null] for a binding that is not a chord. *)
Record ResolvedKeybinding := {
  getParts : ResolvedKeybindingPart * option ResolvedKeybindingPart
}.

Record IQuickNavigateConfiguration := {
  keybindings : list ResolvedKeybinding
}.

(** ** Editors and editor groups (vs/workbench/common/editor, vs/workbench/services/group)

    Of each interface, the members the picker reads. *)

Module EditorInput.
Record t := {
  getName : string;
  getDescription : string;
  isDirty : bool;
  toResource : string
}.
End EditorInput.

Inductive EditorsOrder := MOST_RECENTLY_ACTIVE | SEQUENTIAL.

Inductive GroupsOrder := CREATION_TIME | MOST_RECENTLY_ACTIVE_GROUP | GRID_APPEARANCE.

Module INextEditorGroup.
Record t := {
  ref : nat;
  label : string;
  count : nat;
  editors : list EditorInput.t;
  getEditors : EditorsOrder -> list EditorInput.t
}.

(** [g1 === g2] *)
Definition same (g1 g2 : t) : bool := (ref g1 =? ref g2)%nat.
End INextEditorGroup.

Module INextEditorGroupsService.
Record t := {
  activeGroup : INextEditorGroup.t;
  groups : list INextEditorGroup.t;
  count : nat;
  getGroups : GroupsOrder -> list INextEditorGroup.t
}.
End INextEditorGroupsService.

(** [groups.indexOf(group)]: the position of the first element that is the
    same object, [-1] when there is none. *)
Fixpoint indexOfFrom (groups : list INextEditorGroup.t) (group : INextEditorGroup.t)
    (from : Z) : Z :=
  match groups with
  | [] => (-1)%Z
  | g :: rest =>
      if INextEditorGroup.same g group then from
      else indexOfFrom rest group (from + 1)%Z
  end.

Definition indexOf (groups : list INextEditorGroup.t) (group : INextEditorGroup.t) : Z :=
  indexOfFrom groups group 0%Z.

(** [Array.prototype.sort(compare)]: the language leaves the algorithm
    open; the embedding takes the insertion sort, which calls
    [compare earlier later] and moves [later] in front only when the answer
    is positive. *)
Fixpoint insertSorted {A} (compare : A -> A -> Z) (x : A) (sorted : list A) : list A :=
  match sorted with
  | [] => [x]
  | y :: rest =>
      if (0 <? compare x y)%Z then y :: insertSorted compare x rest
      else x :: sorted
  end.

Fixpoint sort {A} (compare : A -> A -> Z) (l : list A) : list A :=
  match l with
  | [] => []
  | x :: rest => insertSorted compare x (sort compare rest)
  end.

(** [Array.prototype.filter] with a callback that reads and updates the
    cache and may mutate the element it keeps: the callback answers the
    (mutated) element to keep, or [None] to drop it. *)
Fixpoint filterM {A} (callback : A -> M (option A)) (l : list A) : M (list A) :=
  match l with
  | [] => ret []
  | x :: rest =>
      kept <- callback x ;;
      rest' <- filterM callback rest ;;
      ret (match kept with Some x' => x' :: rest' | None => rest' end)
  end.

(** ** Localisation and labels (vs/nls, vs/workbench/browser/labels, vs/base/browser/ui/iconLabel)

    The collaborators of the presentation of an entry, none of them part of
    the picker's file: [nls.localize(key, message, ...args)],
    [getIconClasses(modelService, modeService, resource)] with the two
    injected services fixed, and [group.isPinned(editor)]. *)
Class Presentation := {
  localize : string -> string -> list string -> string;
  getIconClasses : string -> list string;
  isPinned : INextEditorGroup.t -> EditorInput.t -> bool
}.

Record IIconLabelValueOptions := {
  extraClasses : list string;
  italic : bool
}.

(** ** [EditorPickerEntry] *)

Module EditorPickerEntry.

(** The two constructor arguments, and the presentation fields the entry
    inherits from [QuickOpenEntryGroup] / [QuickOpenEntry]. *)
Record t := {
  editor : EditorInput.t;
  _group : INextEditorGroup.t;
  labelHighlights : option (list IMatch);
  descriptionHighlights : option (list IMatch);
  groupLabel : option string;
  showBorder : option bool
}.

(** [instantiationService.createInstance(EditorPickerEntry, editor, group)] *)
Definition createInstance (editor : EditorInput.t) (group : INextEditorGroup.t) : t :=
  {| editor := editor; _group := group;
     labelHighlights := None; descriptionHighlights := None;
     groupLabel := None; showBorder := None |}.

Definition getLabel (e : t) : string := EditorInput.getName (editor e).

Definition getIcon (e : t) : string := if EditorInput.isDirty (editor e) then "dirty" else "".

Definition group (e : t) : INextEditorGroup.t := _group e.

Definition getResource (e : t) : string := EditorInput.toResource (editor e).

Definition getDescription (e : t) : string := EditorInput.getDescription (editor e).

(** Modelled from the spec: [setHighlights] is a method of [QuickOpenEntry]
    (quickOpenModel.ts), not part of the picker's file.  The spec: it
    "mutates the annotation fields for rendering; no return value". *)
Definition setHighlights (e : t) (labelHighlights descriptionHighlights : list IMatch) : t :=
  {| editor := editor e; _group := _group e;
     labelHighlights := Some labelHighlights;
     descriptionHighlights := Some descriptionHighlights;
     groupLabel := groupLabel e; showBorder := showBorder e |}.

(** Modelled from the spec: [setGroupLabel] and [setShowBorder] are methods
    of [QuickOpenEntryGroup] (quickOpenModel.ts).  The spec: they "mutate
    presentation-only annotation fields". *)
Definition setGroupLabel (e : t) (groupLabel : string) : t :=
  {| editor := editor e; _group := _group e;
     labelHighlights := labelHighlights e;
     descriptionHighlights := descriptionHighlights e;
     groupLabel := Some groupLabel; showBorder := showBorder e |}.

(** Modelled from the spec: see [setGroupLabel]. *)
Definition setShowBorder (e : t) (showBorder : bool) : t :=
  {| editor := editor e; _group := _group e;
     labelHighlights := labelHighlights e;
     descriptionHighlights := descriptionHighlights e;
     groupLabel := groupLabel e; showBorder := Some showBorder |}.

(** Modelled from the spec: [QuickOpenItemAccessor] lives in
    quickOpenModel.ts.  The spec scores "the candidate's combined
    label+description text": the accessor hands the scorer the label and
    the description of the entry, and its resource as the path. *)
Definition QuickOpenItemAccessor : IItemAccessor t :=
  {| getItemLabel := getLabel;
     getItemDescription := getDescription;
     getItemPath := getResource |}.

(** Modelled from the spec: what the group answers to [openEditor], the
    "success/failure of that delegation" (the group is not part of the
    picker's file). *)
Inductive OpenOutcome := Opened | OpenFailed.

Definition succeeded (o : OpenOutcome) : bool :=
  match o with Opened => true | OpenFailed => false end.

(** The collaborators of [run]: the workbench state the groups act on,
    [group.openEditor(editor)], and the inherited [run] of
    [QuickOpenEntryGroup]. *)
Class Host (World IEntryRunContext : Type) := {
  openEditor : INextEditorGroup.t -> EditorInput.t -> World -> OpenOutcome * World;
  superRun : t -> Mode -> IEntryRunContext -> World -> bool * World
}.

Section Run.
Context {World IEntryRunContext : Type} {host : Host World IEntryRunContext}.

Definition runOpen (e : t) (context : IEntryRunContext) (w : World) : bool * World :=
  let (_, w') := openEditor (_group e) (editor e) w in
  (true, w').

Definition run (e : t) (mode : Mode) (context : IEntryRunContext) (w : World)
    : bool * World :=
  match mode with
  | OPEN => runOpen e context w
  | _ => superRun e mode context w
  end.
End Run.

Section Labels.
Context {presentation : Presentation}.

Definition getLabelOptions (e : t) : IIconLabelValueOptions :=
  {| extraClasses := getIconClasses (getResource e);
     italic := negb (isPinned (_group e) (editor e)) |}.

Definition getAriaLabel (e : t) : string :=
  localize "entryAriaLabel" "{0}, editor group picker" [getLabel e].
End Labels.

End EditorPickerEntry.

(** ** The quick open model and handler (vs/base/parts/quickopen, vs/workbench/browser/quickopen) *)

Record QuickOpenModel := { entries : list EditorPickerEntry.t }.

(** The second argument of [getAutoFocus]. *)
Record AutoFocusContext := {
  model : QuickOpenModel;
  quickNavigateConfiguration : option IQuickNavigateConfiguration
}.

(** [QuickOpenHandler], the class [BaseEditorPicker] extends: its
    [getAutoFocus] is what [super.getAutoFocus] reaches from a picker that
    inherits from [BaseEditorPicker] directly.  The handler is constructed
    without services: its answer is a function of its two arguments. *)
Class QuickOpenHandler := {
  handlerGetAutoFocus : string -> AutoFocusContext -> IAutoFocus
}.

(** ** [BaseEditorPicker] *)

Module BaseEditorPicker.
Import EditorPickerEntry.

Section Picker.
Context {scorer : FuzzyScorer}.

(** The abstract method, and the injected group service. *)
Variable getEditorEntries : INextEditorGroupsService.t -> list EditorPickerEntry.t.
Variable editorGroupService : INextEditorGroupsService.t.

(** The callback of [editorEntries.filter]. *)
Definition keepEntry (query : IPreparedQuery) (e : EditorPickerEntry.t)
    : M (option EditorPickerEntry.t) :=
  if negb (truthy (value query)) then ret (Some e)
  else
    itemScore <- scoreItem e query true QuickOpenItemAccessor ;;
    if negb (truthyNum (score itemScore)) then ret None
    else ret (Some (setHighlights e (labelMatch itemScore) (descriptionMatch itemScore))).

(** The callback of [entries.sort]. *)
Definition compareEntries (groups : list INextEditorGroup.t) (query : IPreparedQuery)
    (scorerCache : ScorerCache) (e1 e2 : EditorPickerEntry.t) : Z :=
  if negb (INextEditorGroup.same (group e1) (group e2))
  then (indexOf groups (group e1) - indexOf groups (group e2))%Z
  else compareItemsByScore e1 e2 query true QuickOpenItemAccessor scorerCache.

(** The callback of [entries.forEach], with the local [lastGroup]; the
    test is [!lastGroup || lastGroup !== e.group]. *)
Fixpoint annotate (lastGroup : option INextEditorGroup.t)
    (entries : list EditorPickerEntry.t) : list EditorPickerEntry.t :=
  match entries with
  | [] => []
  | e :: rest =>
      if match lastGroup with
         | None => true
         | Some g => negb (INextEditorGroup.same g (group e))
         end
      then
        setShowBorder (setGroupLabel e (INextEditorGroup.label (group e)))
                      (truthyObj lastGroup)
          :: annotate (Some (group e)) rest
      else e :: annotate lastGroup rest
  end.

Definition getResults (searchValue : string) : M (option QuickOpenModel) :=
  let editorEntries := getEditorEntries editorGroupService in
  if (length editorEntries =? 0)%nat then ret None
  else
    (* Prepare search for scoring *)
    let query := prepareQuery searchValue in
    entries <- filterM (keepEntry query) editorEntries ;;
    (* Sorting *)
    scorerCache <- getCache ;;
    let entries :=
      if truthy (value query) then
        let groups := INextEditorGroupsService.getGroups editorGroupService CREATION_TIME in
        sort (compareEntries groups query scorerCache) entries
      else entries in
    (* Grouping (for more than one group) *)
    let entries :=
      if (1 <? INextEditorGroupsService.count editorGroupService)%nat
      then annotate None entries
      else entries in
    ret (Some {| entries := entries |}).

Definition onClose (canceled : bool) : M unit := putCache ∅.
End Picker.

End BaseEditorPicker.

(** ** [ActiveEditorGroupPicker] *)

Module ActiveEditorGroupPicker.
Import EditorPickerEntry.

Definition group (editorGroupService : INextEditorGroupsService.t) : INextEditorGroup.t :=
  INextEditorGroupsService.activeGroup editorGroupService.

Definition getEditorEntries (editorGroupService : INextEditorGroupsService.t)
    : list EditorPickerEntry.t :=
  map (fun editor => createInstance editor (group editorGroupService))
      (INextEditorGroup.getEditors (group editorGroupService) MOST_RECENTLY_ACTIVE).

Definition getResults {scorer : FuzzyScorer} := BaseEditorPicker.getResults getEditorEntries.

Definition isShiftBinding (k : ResolvedKeybinding) : bool :=
  let (firstPart, chordPart) := getParts k in
  match chordPart with
  | Some _ => false
  | None => shiftKey firstPart
  end.

Definition getAutoFocus (editorGroupService : INextEditorGroupsService.t)
    (searchValue : string) (context : AutoFocusContext) : IAutoFocus :=
  if truthy searchValue || negb (truthyObj (quickNavigateConfiguration context)) then
    {| autoFocusFirstEntry := Some true; autoFocusSecondEntry := None;
       autoFocusLastEntry := None |}
  else
    let isShiftNavigate :=
      match quickNavigateConfiguration context with
      | Some configuration => existsb isShiftBinding (keybindings configuration)
      | None => false
      end in
    if isShiftNavigate then
      {| autoFocusFirstEntry := None; autoFocusSecondEntry := None;
         autoFocusLastEntry := Some true |}
    else
      let editors := INextEditorGroup.count (group editorGroupService) in
      {| autoFocusFirstEntry := Some (editors =? 1)%nat;
         autoFocusSecondEntry := Some (1 <? editors)%nat;
         autoFocusLastEntry := None |}.

Definition getEmptyLabel {presentation : Presentation} (searchString : string) : string :=
  if truthy searchString then
    localize "noResultsFoundInGroup" "No matching opened editor found in group" []
  else
    localize "noOpenedEditors" "List of opened editors is currently empty in group" [].

End ActiveEditorGroupPicker.

(** ** [AllEditorsPicker] *)

Module AllEditorsPicker.
Import EditorPickerEntry.

Definition getEditorEntries (editorGroupService : INextEditorGroupsService.t)
    : list EditorPickerEntry.t :=
  flat_map (fun group => map (fun editor => createInstance editor group)
                             (INextEditorGroup.editors group))
           (INextEditorGroupsService.groups editorGroupService).

Definition getResults {scorer : FuzzyScorer} := BaseEditorPicker.getResults getEditorEntries.

(** [super] is [BaseEditorPicker], which does not define [getAutoFocus]:
    the call reaches the handler's. *)
Definition getAutoFocus {handler : QuickOpenHandler} (editorGroupService : INextEditorGroupsService.t)
    (searchValue : string) (context : AutoFocusContext) : IAutoFocus :=
  if truthy searchValue then
    {| autoFocusFirstEntry := Some true; autoFocusSecondEntry := None;
       autoFocusLastEntry := None |}
  else handlerGetAutoFocus searchValue context.


Definition getEmptyLabel {presentation : Presentation} (searchString : string) : string :=
  if truthy searchString then
    localize "noResultsFound" "No matching opened editor found" []
  else
    localize "noOpenedEditorsAllGroups" "List of opened editors is currently empty" [].

End AllEditorsPicker.

(** * The vocabulary of the statements *)

Section Vocabulary.
Import EditorPickerEntry BaseEditorPicker.
Context {scorer : FuzzyScorer}.

(** The editor and group an entry wraps: what identifies a candidate,
    whatever its presentation fields hold. *)
Definition wrapped (e : EditorPickerEntry.t) : EditorInput.t * INextEditorGroup.t :=
  (editor e, _group e).

(** The score the cache answers for an entry (computing it on a miss). *)
Definition cachedScore (query : IPreparedQuery) (cache : ScorerCache)
    (e : EditorPickerEntry.t) : IItemScore :=
  fst (scoreItem e query true QuickOpenItemAccessor cache).

Definition matches (query : IPreparedQuery) (cache : ScorerCache)
    (e : EditorPickerEntry.t) : bool :=
  truthyNum (score (cachedScore query cache e)).

Definition highlighted (query : IPreparedQuery) (cache : ScorerCache)
    (e : EditorPickerEntry.t) : EditorPickerEntry.t :=
  setHighlights e (labelMatch (cachedScore query cache e))
                  (descriptionMatch (cachedScore query cache e)).

(** The key under which the picker's queries cache the score of an
    entry. *)
Definition entryKey (query : IPreparedQuery) (e : EditorPickerEntry.t) : string :=
  cacheHash (viewOf QuickOpenItemAccessor e) query true.

(** [before a b]: the comparison lets [a] stand in front of [b]. *)
Definition before {A} (compare : A -> A -> Z) (a b : A) : Prop := (compare a b <= 0)%Z.

(** The entry's group is one of [groups]. *)
Definition ranked (groups : list INextEditorGroup.t) (e : EditorPickerEntry.t) : Prop :=
  (0 <= indexOf groups (group e))%Z.

(** [r] is [e] up to the two fields the grouping pass assigns. *)
Definition regrouped (e r : EditorPickerEntry.t) : Prop :=
  editor r = editor e /\ _group r = _group e /\
  labelHighlights r = labelHighlights e /\
  descriptionHighlights r = descriptionHighlights e.

(** The three states the pass can leave an entry in. *)
Definition unannotated (e : EditorPickerEntry.t) : Prop :=
  groupLabel e = None /\ showBorder e = None.

Definition startsGroup (border : bool) (e : EditorPickerEntry.t) : Prop :=
  groupLabel e = Some (INextEditorGroup.label (group e)) /\ showBorder e = Some border.

(** The sorting stage and the grouping stage of [getResults]. *)
Definition sortStage (editorGroupService : INextEditorGroupsService.t)
    (query : IPreparedQuery) (scorerCache : ScorerCache)
    (kept : list EditorPickerEntry.t) : list EditorPickerEntry.t :=
  if truthy (value query) then
    sort (compareEntries (INextEditorGroupsService.getGroups editorGroupService CREATION_TIME)
                         query scorerCache) kept
  else kept.

Definition groupStage (editorGroupService : INextEditorGroupsService.t)
    (sorted : list EditorPickerEntry.t) : list EditorPickerEntry.t :=
  if (1 <? INextEditorGroupsService.count editorGroupService)%nat
  then annotate None sorted
  else sorted.

End Vocabulary.

(** What an [IAutoFocus] asks of the widget. *)
Definition focusFirst (focus : IAutoFocus) : Prop :=
  autoFocusFirstEntry focus = Some true /\
  autoFocusSecondEntry focus <> Some true /\
  autoFocusLastEntry focus <> Some true.

Definition focusSecond (focus : IAutoFocus) : Prop :=
  autoFocusSecondEntry focus = Some true /\
  autoFocusFirstEntry focus <> Some true /\
  autoFocusLastEntry focus <> Some true.

Definition focusLast (focus : IAutoFocus) : Prop :=
  autoFocusLastEntry focus = Some true /\
  autoFocusFirstEntry focus <> Some true /\
  autoFocusSecondEntry focus <> Some true.

(** Some quick-navigate keybinding is not a chord and has the shift
    modifier. *)
Definition shiftNavigate (configuration : IQuickNavigateConfiguration) : Prop :=
  exists k, k ∈ keybindings configuration /\
            snd (getParts k) = None /\ shiftKey (fst (getParts k)) = true.

(** ** Vocabulary of the further properties *)

Section Presenting.
Import EditorPickerEntry.
Context {presentation : Presentation}.

(** [r] presents itself as [e] does: every accessor of the entry answers
    the same. *)
Definition presentsAs (e r : EditorPickerEntry.t) : Prop :=
  getLabel r = getLabel e /\
  getDescription r = getDescription e /\
  getIcon r = getIcon e /\
  getResource r = getResource e /\
  getAriaLabel r = getAriaLabel e /\
  getLabelOptions r = getLabelOptions e.
End Presenting.

(** The entries of a group as the grouping pass leaves them when the group
    is not the one of the entry before: the first one labelled. *)
Definition markFirst (border : bool) (l : list EditorPickerEntry.t)
    : list EditorPickerEntry.t :=
  match l with
  | [] => []
  | e :: rest =>
      EditorPickerEntry.setShowBorder
        (EditorPickerEntry.setGroupLabel e
           (INextEditorGroup.label (EditorPickerEntry.group e)))
        border
        :: rest
  end.

(** The editors of the groups, group by group, the first editor of each
    group labelled; [border] tells whether the first label comes with a
    border. *)
Fixpoint headed (border : bool) (groups : list INextEditorGroup.t)
    : list EditorPickerEntry.t :=
  match groups with
  | [] => []
  | g :: rest =>
      match INextEditorGroup.editors g with
      | [] => headed border rest
      | editors =>
          markFirst border
            (map (fun editor => EditorPickerEntry.createInstance editor g) editors)
          ++ headed true rest
      end
  end.

(** ** A concrete scorer and workbench, for the examples *)

Module Fixture.

(** A substring scorer: an item scores when the query occurs in its
    label, the earlier the better; the comparison puts the higher score
    first. *)
Definition substringScore (view : ItemView) (query : IPreparedQuery) (fuzzy : bool)
    : IItemScore :=
  match index 0 (lowercase query) (toLowerCase (viewLabel view)) with
  | Some at_ =>
      {| score := 100 - Z.of_nat at_;
         labelMatch := [{| matchStart := at_;
                           matchEnd := at_ + String.length (lowercase query) |}];
         descriptionMatch := [] |}
  | None => {| score := 0; labelMatch := []; descriptionMatch := [] |}
  end.

Definition substringHash (view : ItemView) (query : IPreparedQuery) (fuzzy : bool) : string :=
  (viewLabel view ++ viewDescription view ++ value query
   ++ (if fuzzy then "true" else "false"))%string.

Definition scoreIn (cache : ScorerCache) (view : ItemView) (query : IPreparedQuery)
    (fuzzy : bool) : Z :=
  match cache !! substringHash view query fuzzy with
  | Some cached => score cached
  | None => score (substringScore view query fuzzy)
  end.

Definition substringScorer : FuzzyScorer :=
  {| cacheHash := substringHash;
     doScoreItem := substringScore;
     doCompareItems := fun a b query fuzzy cache =>
       (scoreIn cache b query fuzzy - scoreIn cache a query fuzzy)%Z |}.

Definition fooTxt : EditorInput.t :=
  {| EditorInput.getName := "foo.txt"; EditorInput.getDescription := "src";
     EditorInput.isDirty := false; EditorInput.toResource := "/src/foo.txt" |}.

Definition barTxt : EditorInput.t :=
  {| EditorInput.getName := "bar.txt"; EditorInput.getDescription := "src";
     EditorInput.isDirty := true; EditorInput.toResource := "/src/bar.txt" |}.

Definition foobarTxt : EditorInput.t :=
  {| EditorInput.getName := "foobar.txt"; EditorInput.getDescription := "test";
     EditorInput.isDirty := false; EditorInput.toResource := "/test/foobar.txt" |}.

(** Two groups, the first one created first and active. *)
Definition group1 : INextEditorGroup.t :=
  {| INextEditorGroup.ref := 1; INextEditorGroup.label := "Group 1";
     INextEditorGroup.count := 2;
     INextEditorGroup.editors := [fooTxt; barTxt];
     INextEditorGroup.getEditors := fun order =>
       match order with
       | MOST_RECENTLY_ACTIVE => [barTxt; fooTxt]
       | SEQUENTIAL => [fooTxt; barTxt]
       end |}.

Definition group2 : INextEditorGroup.t :=
  {| INextEditorGroup.ref := 2; INextEditorGroup.label := "Group 2";
     INextEditorGroup.count := 1;
     INextEditorGroup.editors := [foobarTxt];
     INextEditorGroup.getEditors := fun _ => [foobarTxt] |}.

Definition workbench : INextEditorGroupsService.t :=
  {| INextEditorGroupsService.activeGroup := group1;
     INextEditorGroupsService.groups := [group2; group1];
     INextEditorGroupsService.count := 2;
     INextEditorGroupsService.getGroups := fun order =>
       match order with
       | CREATION_TIME => [group1; group2]
       | _ => [group2; group1]
       end |}.

(** The same workbench with the second group active. *)
Definition workbench2 : INextEditorGroupsService.t :=
  {| INextEditorGroupsService.activeGroup := group2;
     INextEditorGroupsService.groups := [group2; group1];
     INextEditorGroupsService.count := 2;
     INextEditorGroupsService.getGroups := fun order =>
       match order with
       | CREATION_TIME => [group1; group2]
       | _ => [group2; group1]
       end |}.

(** Quick-navigate keybindings: ctrl+tab, ctrl+shift+tab, and a chord whose
    first part has the shift modifier. *)
Definition ctrlTab : ResolvedKeybinding :=
  {| getParts :=
       ({| ctrlKey := true; shiftKey := false; altKey := false; metaKey := false |}, None) |}.

Definition ctrlShiftTab : ResolvedKeybinding :=
  {| getParts :=
       ({| ctrlKey := true; shiftKey := true; altKey := false; metaKey := false |}, None) |}.

Definition shiftChord : ResolvedKeybinding :=
  {| getParts :=
       ({| ctrlKey := true; shiftKey := true; altKey := false; metaKey := false |},
        Some {| ctrlKey := true; shiftKey := false; altKey := false; metaKey := false |}) |}.

Definition navigating (bindings : list ResolvedKeybinding) : AutoFocusContext :=
  {| model := {| entries := [] |};
     quickNavigateConfiguration := Some {| keybindings := bindings |} |}.

Definition notNavigating : AutoFocusContext :=
  {| model := {| entries := [] |}; quickNavigateConfiguration := None |}.

(** A handler whose [getAutoFocus] asks for nothing. *)
Definition plainHandler : QuickOpenHandler :=
  {| handlerGetAutoFocus := fun _ _ =>
       {| autoFocusFirstEntry := None; autoFocusSecondEntry := None;
          autoFocusLastEntry := None |} |}.

(** A workbench, reduced to the log of the editors its groups opened, whose
    groups fail to open any editor. *)
Definition failingHost : EditorPickerEntry.Host (list string) unit :=
  {| EditorPickerEntry.openEditor := fun _ editor log =>
       (EditorPickerEntry.OpenFailed, log);
     EditorPickerEntry.superRun := fun _ _ _ log => (false, log) |}.

(** A workbench whose groups open every editor. *)
Definition openingHost : EditorPickerEntry.Host (list string) unit :=
  {| EditorPickerEntry.openEditor := fun _ editor log =>
       (EditorPickerEntry.Opened, EditorInput.getName editor :: log);
     EditorPickerEntry.superRun := fun _ _ _ log => (false, log) |}.


(** The presentation of the default locale: [localize] answers the message
    with its first argument in front of it in place of a leading [{0}];
    no icon classes; the first group has pinned [foo.txt] only. *)
Definition plainPresentation : Presentation :=
  {| localize := fun _ message args =>
       match args, message with
       | arg :: _, String "{" (String "0" (String "}" rest)) => (arg ++ rest)%string
       | _, _ => message
       end;
     getIconClasses := fun _ => [];
     isPinned := fun group editor =>
       INextEditorGroup.same group group1
       && String.eqb (EditorInput.getName editor) "foo.txt" |}.

(** A third group, created after the first, that shows [foobar.txt] and,
    like the first group, [foo.txt] and [bar.txt]; and a workbench of the
    first and the third group, the third active. *)
Definition group3 : INextEditorGroup.t :=
  {| INextEditorGroup.ref := 3; INextEditorGroup.label := "Group 3";
     INextEditorGroup.count := 3;
     INextEditorGroup.editors := [foobarTxt; fooTxt; barTxt];
     INextEditorGroup.getEditors := fun order =>
       match order with
       | MOST_RECENTLY_ACTIVE => [barTxt; foobarTxt; fooTxt]
       | SEQUENTIAL => [foobarTxt; fooTxt; barTxt]
       end |}.

Definition workbench3 : INextEditorGroupsService.t :=
  {| INextEditorGroupsService.activeGroup := group3;
     INextEditorGroupsService.groups := [group3; group1];
     INextEditorGroupsService.count := 2;
     INextEditorGroupsService.getGroups := fun order =>
       match order with
       | CREATION_TIME => [group1; group3]
       | _ => [group3; group1]
       end |}.

(** A workbench whose only group shows no editor. *)
Definition emptyGroup : INextEditorGroup.t :=
  {| INextEditorGroup.ref := 5; INextEditorGroup.label := "Group 5";
     INextEditorGroup.count := 0;
     INextEditorGroup.editors := [];
     INextEditorGroup.getEditors := fun _ => [] |}.

Definition emptyWorkbench : INextEditorGroupsService.t :=
  {| INextEditorGroupsService.activeGroup := emptyGroup;
     INextEditorGroupsService.groups := [emptyGroup];
     INextEditorGroupsService.count := 1;
     INextEditorGroupsService.getGroups := fun _ => [emptyGroup] |}.
End Fixture.

(** * Properties *)

(** ** The cache discipline of the scorer *)

Section ScorerFacts.
Context {scorer : FuzzyScorer}.
Context {T : Type} (accessor : IItemAccessor T).

Lemma scoreItem_hit (item : T) query fuzzy (cache : ScorerCache) s :
  cache !! cacheHash (viewOf accessor item) query fuzzy = Some s ->
  scoreItem item query fuzzy accessor cache = (s, cache).
Proof. intros Hhit. unfold scoreItem. now rewrite Hhit. Qed.

Lemma scoreItem_miss (item : T) query fuzzy (cache : ScorerCache) :
  cache !! cacheHash (viewOf accessor item) query fuzzy = None ->
  scoreItem item query fuzzy accessor cache =
    (doScoreItem (viewOf accessor item) query fuzzy,
     <[cacheHash (viewOf accessor item) query fuzzy :=
         doScoreItem (viewOf accessor item) query fuzzy]> cache).
Proof. intros Hmiss. unfold scoreItem. now rewrite Hmiss. Qed.

(** Scoring only ever adds to the cache, and leaves the score it answers
    under the item's key. *)
Lemma scoreItem_stores (item : T) query fuzzy (cache cache' : ScorerCache) s :
  scoreItem item query fuzzy accessor cache = (s, cache') ->
  cache ⊆ cache' /\ cache' !! cacheHash (viewOf accessor item) query fuzzy = Some s.
Proof.
  unfold scoreItem.
  destruct (cache !! _) as [cached|] eqn:Hlook; intros [= <- <-].
  - split; [reflexivity | exact Hlook].
  - split; [now apply insert_subseteq | apply lookup_insert_eq].
Qed.

(** A larger cache answers the same score, and is left as it is. *)
Lemma scoreItem_again (item : T) query fuzzy (cache cache' later : ScorerCache) s :
  scoreItem item query fuzzy accessor cache = (s, cache') ->
  cache' ⊆ later ->
  scoreItem item query fuzzy accessor later = (s, later).
Proof.
  intros Hrun Hsub. apply scoreItem_stores in Hrun as [_ Hkey].
  apply scoreItem_hit. eapply lookup_weaken; eassumption.
Qed.

(** The scorer sees two items with the same view as one. *)
Lemma scoreItem_view (a b : T) query fuzzy (cache : ScorerCache) :
  viewOf accessor a = viewOf accessor b ->
  scoreItem a query fuzzy accessor cache = scoreItem b query fuzzy accessor cache.
Proof. intros Hview. unfold scoreItem. now rewrite Hview. Qed.
End ScorerFacts.

(** ** Query preparation *)

Lemma trimStart_whitespaceOnly s : whitespaceOnly s = true -> trimStart s = "".
Proof.
  induction s as [|c rest IH]; simpl; [reflexivity|].
  intros [Hc Hrest]%andb_prop. rewrite Hc. now apply IH.
Qed.

Lemma prepareQuery_blank searchValue :
  whitespaceOnly searchValue = true -> value (prepareQuery searchValue) = "".
Proof.
  intros Hblank. unfold prepareQuery, trim; simpl.
  now rewrite (trimStart_whitespaceOnly _ Hblank).
Qed.

(** ** The filter *)

Section FilterFacts.
Import EditorPickerEntry BaseEditorPicker.
Context {scorer : FuzzyScorer}.

Lemma view_wrapped (a b : EditorPickerEntry.t) :
  wrapped a = wrapped b ->
  viewOf QuickOpenItemAccessor a = viewOf QuickOpenItemAccessor b.
Proof.
  unfold wrapped, viewOf; simpl. unfold getLabel, getDescription, getResource.
  now intros [= -> _].
Qed.

Lemma cachedScore_wrapped query cache (a b : EditorPickerEntry.t) :
  wrapped a = wrapped b -> cachedScore query cache a = cachedScore query cache b.
Proof.
  intros Hw. unfold cachedScore.
  now rewrite (scoreItem_view _ a b _ _ _ (view_wrapped _ _ Hw)).
Qed.

Lemma keepEntry_blank query e (cache : ScorerCache) :
  truthy (value query) = false -> keepEntry query e cache = (Some e, cache).
Proof. intros Hq. unfold keepEntry. now rewrite Hq. Qed.

Lemma keepEntry_scored query e (cache : ScorerCache) :
  truthy (value query) = true ->
  keepEntry query e cache =
    let (itemScore, cache') := scoreItem e query true QuickOpenItemAccessor cache in
    (if truthyNum (score itemScore)
     then Some (setHighlights e (labelMatch itemScore) (descriptionMatch itemScore))
     else None, cache').
Proof.
  intros Hq. unfold keepEntry, bind, ret. rewrite Hq; simpl.
  destruct (scoreItem _ _ _ _ _) as [s c'].
  now destruct (truthyNum (score s)).
Qed.

Lemma filterM_cons {A} (callback : A -> M (option A)) x rest (cache : ScorerCache) :
  filterM callback (x :: rest) cache =
    let (kept, cache') := callback x cache in
    let (rest', cache'') := filterM callback rest cache' in
    (match kept with Some x' => x' :: rest' | None => rest' end, cache'').
Proof.
  simpl. unfold bind, ret.
  destruct (callback x cache) as [kept cache'].
  now destruct (filterM callback rest cache') as [rest' cache''].
Qed.

(** With an empty query the filter keeps every candidate as it is and
    never touches the cache. *)
Lemma filterM_keepEntry_blank query l (cache : ScorerCache) :
  truthy (value query) = false ->
  filterM (keepEntry query) l cache = (l, cache).
Proof.
  intros Hq. induction l as [|e rest IH]; [reflexivity|].
  now rewrite filterM_cons, (keepEntry_blank _ _ _ Hq), IH.
Qed.

(** With a non-empty query the filter only adds to the cache, and what it
    keeps is read off any cache that extends the one it leaves: the
    candidates that cache scores nonzero, each highlighted from its
    score. *)
Lemma filterM_keepEntry_scored query l (cache cache' : ScorerCache) kept :
  truthy (value query) = true ->
  filterM (keepEntry query) l cache = (kept, cache') ->
  cache ⊆ cache' /\
  forall later : ScorerCache, cache' ⊆ later ->
    kept = map (highlighted query later) (List.filter (matches query later) l).
Proof.
  intros Hq. revert cache kept.
  induction l as [|e rest IH]; intros cache kept.
  - intros [= <- <-]. split; [reflexivity | now intros].
  - rewrite filterM_cons, (keepEntry_scored _ _ _ Hq).
    destruct (scoreItem e query true QuickOpenItemAccessor cache) as [s c1] eqn:Hs.
    destruct (filterM (keepEntry query) rest c1) as [rest' c2] eqn:Hrest.
    intros [= <- <-].
    destruct (IH _ _ Hrest) as [Hsub Hkept].
    pose proof (scoreItem_stores _ _ _ _ _ _ _ Hs) as [Hsub1 _].
    split; [now transitivity c1|].
    intros later Hlater. simpl.
    assert (Hsc : cachedScore query later e = s).
    { unfold cachedScore.
      rewrite (scoreItem_again _ _ _ _ _ _ later _ Hs); [reflexivity|].
      now transitivity c2. }
    unfold matches at 1. rewrite Hsc.
    destruct (truthyNum (score s)); simpl.
    + unfold highlighted at 1. rewrite Hsc. f_equal. now apply Hkept.
    + now apply Hkept.
Qed.

Lemma filterM_app {A} (callback : A -> M (option A)) l1 l2 (cache : ScorerCache) :
  filterM callback (l1 ++ l2) cache =
    let (kept1, cache1) := filterM callback l1 cache in
    let (kept2, cache2) := filterM callback l2 cache1 in
    (kept1 ++ kept2, cache2).
Proof.
  revert cache. induction l1 as [|x rest IH]; intros cache.
  - simpl. unfold ret. now destruct (filterM callback l2 cache).
  - change ((x :: rest) ++ l2) with (x :: (rest ++ l2)). rewrite !filterM_cons.
    destruct (callback x cache) as [kept cache']. rewrite IH.
    destruct (filterM callback rest cache') as [kept1 cache1].
    destruct (filterM callback l2 cache1) as [kept2 cache2].
    now destruct kept.
Qed.

Lemma filterM_keepEntry_grows query l (cache cache' : ScorerCache) kept :
  filterM (keepEntry query) l cache = (kept, cache') -> cache ⊆ cache'.
Proof.
  destruct (truthy (value query)) eqn:Hq.
  - intros Hrun. now destruct (filterM_keepEntry_scored _ _ _ _ _ Hq Hrun).
  - rewrite (filterM_keepEntry_blank _ _ _ Hq). now intros [= _ <-].
Qed.

(** Filtering again from a cache that extends the one a first pass left
    keeps the same entries and leaves that cache as it is. *)
Lemma filterM_keepEntry_again query l (cache cache' later : ScorerCache) kept :
  filterM (keepEntry query) l cache = (kept, cache') ->
  cache' ⊆ later ->
  filterM (keepEntry query) l later = (kept, later).
Proof.
  destruct (truthy (value query)) eqn:Hq.
  2:{ rewrite !(filterM_keepEntry_blank _ _ _ Hq). now intros [= <- <-]. }
  revert cache kept.
  induction l as [|e rest IH]; intros cache kept.
  - now intros [= <- <-].
  - rewrite !filterM_cons, !(keepEntry_scored _ _ _ Hq).
    destruct (scoreItem e query true QuickOpenItemAccessor cache) as [s c1] eqn:Hs.
    destruct (filterM (keepEntry query) rest c1) as [rest' c2] eqn:Hrest.
    intros [= <- <-] Hlater.
    destruct (filterM_keepEntry_scored _ _ _ _ _ Hq Hrest) as [Hsub _].
    rewrite (scoreItem_again _ _ _ _ _ _ later _ Hs) by (now transitivity c2).
    now rewrite (IH _ _ Hrest Hlater).
Qed.
End FilterFacts.

(** ** The sort *)

Section SortFacts.
Context {A : Type} (compare : A -> A -> Z).

Lemma insertSorted_perm x (l : list A) : insertSorted compare x l ≡ₚ x :: l.
Proof.
  induction l as [|y rest IH]; simpl; [reflexivity|].
  destruct (0 <? compare x y)%Z; [|reflexivity].
  rewrite IH. apply perm_swap.
Qed.

Lemma sort_perm (l : list A) : sort compare l ≡ₚ l.
Proof.
  induction l as [|x rest IH]; simpl; [reflexivity|].
  now rewrite insertSorted_perm, IH.
Qed.

Lemma sort_length (l : list A) : length (sort compare l) = length l.
Proof. now rewrite (Permutation_length (sort_perm l)). Qed.

(** The comparison is a consistent one on the elements that satisfy
    [P]. *)
Variable P : A -> Prop.
Hypothesis compare_total : forall a b, P a -> P b -> before compare a b \/ before compare b a.
Hypothesis compare_trans :
  forall a b c, P a -> P b -> P c -> before compare a b -> before compare b c -> before compare a c.

Lemma insertSorted_sorted x (l : list A) :
  P x -> Forall P l ->
  StronglySorted (before compare) l -> StronglySorted (before compare) (insertSorted compare x l).
Proof.
  intros Px. induction l as [|y rest IH]; simpl; intros HP Hsorted.
  - repeat constructor.
  - apply Forall_cons in HP as [Py HP].
    apply StronglySorted_inv in Hsorted as [Hrest Hy].
    destruct (0 <? compare x y)%Z eqn:Hcmp.
    + constructor; [now apply IH|].
      rewrite insertSorted_perm. constructor; [|assumption].
      destruct (compare_total x y Px Py) as [Hxy|Hyx]; [|assumption].
      apply Z.ltb_lt in Hcmp. unfold before in Hxy. lia.
    + apply Z.ltb_ge in Hcmp.
      constructor; [now constructor|].
      constructor; [exact Hcmp|].
      rewrite Forall_forall in Hy, HP |- *. intros z Hz.
      apply (compare_trans x y z); auto. 
  Qed.

Lemma sort_sorted (l : list A) :
  Forall P l -> StronglySorted (before compare) (sort compare l).
Proof.
  induction l as [|x rest IH]; simpl; intros HP; [constructor|].
  apply Forall_cons in HP as [Px HP].
  apply insertSorted_sorted; auto.
  now rewrite sort_perm.
Qed.
End SortFacts.

Lemma StronglySorted_lookup {A} (R : A -> A -> Prop) (l : list A) i j a b :
  StronglySorted R l -> (i < j)%nat -> l !! i = Some a -> l !! j = Some b -> R a b.
Proof.
  intros Hsorted. revert i j.
  induction Hsorted as [|x rest Hrest IH Hx]; intros i j Hij Ha Hb; [discriminate|].
  destruct j as [|j]; [lia|]. simpl in Hb.
  destruct i as [|i]; simpl in Ha.
  - injection Ha as <-. rewrite Forall_forall in Hx. apply Hx.
    apply list_elem_of_lookup. now exists j.
  - apply (IH i j); [lia | assumption..].
Qed.

(** ** Groups: identity and position *)

Section GroupFacts.
Import INextEditorGroup.

Lemma same_refl g : same g g = true.
Proof. apply Nat.eqb_refl. Qed.

Lemma same_ref g1 g2 : same g1 g2 = true <-> ref g1 = ref g2.
Proof. apply Nat.eqb_eq. Qed.

Lemma same_congr g g1 g2 : same g1 g2 = true -> same g g1 = same g g2.
Proof. unfold same. now intros ->%Nat.eqb_eq. Qed.

Lemma same_sym g1 g2 : same g1 g2 = same g2 g1.
Proof. apply Nat.eqb_sym. Qed.

Lemma indexOfFrom_range groups g from :
  indexOfFrom groups g from = (-1)%Z \/ (from <= indexOfFrom groups g from)%Z.
Proof.
  revert from. induction groups as [|x rest IH]; intros from; simpl; [now left|].
  destruct (same x g); [right; lia|].
  destruct (IH (from + 1)%Z); [now left | right; lia].
Qed.

Lemma indexOfFrom_same groups a b from :
  same a b = true -> indexOfFrom groups a from = indexOfFrom groups b from.
Proof.
  intros Hab. revert from. induction groups as [|x rest IH]; intros from; simpl; [reflexivity|].
  now rewrite (same_congr x a b Hab), IH.
Qed.

Lemma indexOfFrom_inj groups a b from :
  (0 <= from)%Z -> (0 <= indexOfFrom groups a from)%Z ->
  indexOfFrom groups a from = indexOfFrom groups b from ->
  same a b = true.
Proof.
  revert from. induction groups as [|x rest IH]; intros from Hfrom; simpl; [lia|].
  destruct (same x a) eqn:Hxa, (same x b) eqn:Hxb; intros Hpos Heq.
  - apply same_ref. apply same_ref in Hxa, Hxb. congruence.
  - destruct (indexOfFrom_range rest b (from + 1)); lia.
  - destruct (indexOfFrom_range rest a (from + 1)); lia.
  - apply (IH (from + 1)%Z); [lia | assumption..].
Qed.

(** Two groups found at the same position are the same group, and the
    same group is found at one position. *)
Lemma indexOf_inj groups a b :
  (0 <= indexOf groups a)%Z -> indexOf groups a = indexOf groups b -> same a b = true.
Proof. apply indexOfFrom_inj. lia. Qed.

Lemma indexOf_same groups a b :
  same a b = true -> indexOf groups a = indexOf groups b.
Proof. apply indexOfFrom_same. Qed.
End GroupFacts.

(** ** The sort callback *)

Section CompareFacts.
Import EditorPickerEntry BaseEditorPicker.
Context {scorer : FuzzyScorer}.
Variable groups : list INextEditorGroup.t.
Variable query : IPreparedQuery.
Variable cache : ScorerCache.

(** The scorer's comparison is a consistent one. *)
Hypothesis scorer_total :
  forall a b, (doCompareItems a b query true cache <= 0)%Z \/
              (doCompareItems b a query true cache <= 0)%Z.
Hypothesis scorer_trans :
  forall a b c, (doCompareItems a b query true cache <= 0)%Z ->
                (doCompareItems b c query true cache <= 0)%Z ->
                (doCompareItems a c query true cache <= 0)%Z.

Lemma compareEntries_same e1 e2 :
  INextEditorGroup.same (group e1) (group e2) = true ->
  compareEntries groups query cache e1 e2 =
    compareItemsByScore e1 e2 query true QuickOpenItemAccessor cache.
Proof. intros Hsame. unfold compareEntries. now rewrite Hsame. Qed.

Lemma compareEntries_other e1 e2 :
  INextEditorGroup.same (group e1) (group e2) = false ->
  compareEntries groups query cache e1 e2 =
    (indexOf groups (group e1) - indexOf groups (group e2))%Z.
Proof. intros Hsame. unfold compareEntries. now rewrite Hsame. Qed.

(** Standing in front means: an older group, or the same group and the
    scorer's consent. *)
Lemma before_rank e1 e2 :
  ranked groups e1 ->
  before (compareEntries groups query cache) e1 e2 ->
  if INextEditorGroup.same (group e1) (group e2)
  then (compareItemsByScore e1 e2 query true QuickOpenItemAccessor cache <= 0)%Z
  else (indexOf groups (group e1) < indexOf groups (group e2))%Z.
Proof.
  unfold before, ranked. intros Hranked Hbefore.
  destruct (INextEditorGroup.same (group e1) (group e2)) eqn:Hsame.
  - now rewrite compareEntries_same in Hbefore.
  - rewrite compareEntries_other in Hbefore by assumption.
    destruct (Z.eq_dec (indexOf groups (group e1)) (indexOf groups (group e2))) as [Heq|]; [|lia].
    apply indexOf_inj in Heq; [congruence | assumption].
Qed.

Lemma before_rank_le e1 e2 :
  ranked groups e1 ->
  before (compareEntries groups query cache) e1 e2 ->
  (indexOf groups (group e1) <= indexOf groups (group e2))%Z.
Proof.
  intros Hranked Hbefore. pose proof (before_rank _ _ Hranked Hbefore) as Hcase.
  destruct (INextEditorGroup.same (group e1) (group e2)) eqn:Hsame; [|lia].
  rewrite (indexOf_same groups _ _ Hsame). lia.
Qed.

Lemma compareEntries_total e1 e2 :
  ranked groups e1 -> ranked groups e2 ->
  before (compareEntries groups query cache) e1 e2 \/
  before (compareEntries groups query cache) e2 e1.
Proof.
  intros _ _. unfold before.
  destruct (INextEditorGroup.same (group e1) (group e2)) eqn:Hsame;
    pose proof Hsame as Hsame'; rewrite same_sym in Hsame'.
  - rewrite (compareEntries_same e1 e2 Hsame), (compareEntries_same e2 e1 Hsame').
    apply scorer_total.
  - rewrite (compareEntries_other e1 e2 Hsame), (compareEntries_other e2 e1 Hsame').
    lia.
Qed.

Lemma compareEntries_trans e1 e2 e3 :
  ranked groups e1 -> ranked groups e2 -> ranked groups e3 ->
  before (compareEntries groups query cache) e1 e2 ->
  before (compareEntries groups query cache) e2 e3 ->
  before (compareEntries groups query cache) e1 e3.
Proof.
  intros R1 R2 R3 H12 H23.
  pose proof (before_rank_le _ _ R1 H12) as L12.
  pose proof (before_rank_le _ _ R2 H23) as L23.
  pose proof (before_rank _ _ R1 H12) as C12.
  pose proof (before_rank _ _ R2 H23) as C23.
  unfold before.
  destruct (INextEditorGroup.same (group e1) (group e3)) eqn:S13.
  - rewrite compareEntries_same by assumption.
    pose proof (indexOf_same groups _ _ S13) as E13.
    destruct (INextEditorGroup.same (group e1) (group e2)); [|lia].
    destruct (INextEditorGroup.same (group e2) (group e3)); [|lia].
    exact (scorer_trans _ _ _ C12 C23).
  - rewrite compareEntries_other by assumption.
    destruct (Z.eq_dec (indexOf groups (group e1)) (indexOf groups (group e3))) as [Heq|]; [|lia].
    apply indexOf_inj in Heq; [congruence | assumption].
Qed.
End CompareFacts.

(** ** The grouping pass *)

Section AnnotateFacts.
Import EditorPickerEntry BaseEditorPicker.

Lemma regrouped_refl e : regrouped e e.
Proof. now repeat split. Qed.

Lemma regrouped_wrapped e r : regrouped e r -> wrapped r = wrapped e.
Proof. unfold wrapped. now intros (-> & -> & _). Qed.

Lemma annotate_regrouped lastGroup l : Forall2 regrouped l (annotate lastGroup l).
Proof.
  revert lastGroup. induction l as [|e rest IH]; intros lastGroup; simpl; [constructor|].
  destruct (match lastGroup with None => true | Some g => _ end);
    constructor; auto using regrouped_refl.
  now repeat split.
Qed.

Lemma annotate_length lastGroup l : length (annotate lastGroup l) = length l.
Proof. symmetry. eapply Forall2_length, annotate_regrouped. Qed.

(** One step of the walk: the entry it leaves, and the [lastGroup] it
    goes on with, which is the group of that entry. *)
Lemma annotate_cons lastGroup e rest :
  exists e' g',
    annotate lastGroup (e :: rest) = e' :: annotate (Some g') rest /\
    INextEditorGroup.same g' (group e') = true /\
    group e' = group e /\
    (unannotated e ->
     match lastGroup with
     | None => startsGroup false e'
     | Some g =>
         if INextEditorGroup.same g (group e) then unannotated e' else startsGroup true e'
     end).
Proof.
  simpl. destruct lastGroup as [g|]; simpl.
  - destruct (INextEditorGroup.same g (group e)) eqn:Hsame; simpl.
    + exists e, g. split; [reflexivity|]. split; [assumption|]. split; [reflexivity|]. auto.
    + eexists _, (group e). repeat split. apply same_refl.
  - eexists _, (group e). repeat split. apply same_refl.
Qed.

Lemma annotate_head lastGroup e rest r :
  unannotated e ->
  annotate lastGroup (e :: rest) !! 0%nat = Some r ->
  match lastGroup with
  | None => startsGroup false r
  | Some g =>
      if INextEditorGroup.same g (group r) then unannotated r else startsGroup true r
  end.
Proof.
  intros He. destruct (annotate_cons lastGroup e rest) as (e' & g' & -> & _ & Hg & Hcase).
  intros [= <-]. specialize (Hcase He).
  destruct lastGroup; [now rewrite Hg | assumption].
Qed.

(** Every later entry: a label and a border exactly where the group
    changes. *)
Lemma annotate_adjacent lastGroup l i p r :
  Forall unannotated l ->
  annotate lastGroup l !! i = Some p ->
  annotate lastGroup l !! S i = Some r ->
  if INextEditorGroup.same (group p) (group r) then unannotated r else startsGroup true r.
Proof.
  revert lastGroup i. induction l as [|e rest IH]; intros lastGroup i Hl; [discriminate|].
  apply Forall_cons in Hl as [_ Hrest].
  destruct (annotate_cons lastGroup e rest) as (e' & g' & -> & Hg' & _ & _).
  destruct i as [|i]; simpl.
  - intros [= <-] Hr.
    destruct rest as [|x rest']; [discriminate|].
    apply Forall_cons in Hrest as [Hx _].
    pose proof (annotate_head (Some g') x rest' r Hx Hr) as Hcase. simpl in Hcase.
    apply same_ref in Hg'. unfold INextEditorGroup.same in *.
    now rewrite <- Hg'.
  - apply IH; assumption.
Qed.

End AnnotateFacts.

(** ** [getResults], stage by stage *)

Section ResultFacts.
Import EditorPickerEntry BaseEditorPicker.
Context {scorer : FuzzyScorer}.
Variable getEditorEntries : INextEditorGroupsService.t -> list EditorPickerEntry.t.
Variable editorGroupService : INextEditorGroupsService.t.

Lemma getResults_stages searchValue (cache : ScorerCache) :
  getResults getEditorEntries editorGroupService searchValue cache =
    match getEditorEntries editorGroupService with
    | [] => (None, cache)
    | _ :: _ =>
        let query := prepareQuery searchValue in
        let (kept, cache') :=
          filterM (keepEntry query) (getEditorEntries editorGroupService) cache in
        (Some {| entries := groupStage editorGroupService (sortStage editorGroupService query cache' kept) |}, cache')
    end.
Proof.
  unfold getResults, groupStage, sortStage.
  destruct (getEditorEntries editorGroupService) as [|e rest] eqn:Hentries; [reflexivity|].
  change (length (e :: rest) =? 0)%nat with false. cbv iota.
  unfold bind, getCache, ret. cbv zeta.
  now destruct (filterM _ _ cache) as [kept cache'].
Qed.

(** The cache a query leaves is the cache its filter leaves. *)
Lemma getResults_cache searchValue (cache : ScorerCache) :
  snd (getResults getEditorEntries editorGroupService searchValue cache) =
  snd (filterM (keepEntry (prepareQuery searchValue))
               (getEditorEntries editorGroupService) cache).
Proof.
  rewrite getResults_stages.
  destruct (getEditorEntries editorGroupService) as [|e0 rest]; [reflexivity|].
  cbv zeta. now destruct (filterM _ _ cache).
Qed.

(** With an empty query only the grouping stage is at work. *)
Lemma getResults_blank searchValue (cache : ScorerCache) :
  truthy (value (prepareQuery searchValue)) = false ->
  getResults getEditorEntries editorGroupService searchValue cache =
    (match getEditorEntries editorGroupService with
     | [] => None
     | _ :: _ => Some {| entries := groupStage editorGroupService
                                   (getEditorEntries editorGroupService) |}
     end, cache).
Proof.
  intros Hq. rewrite getResults_stages.
  destruct (getEditorEntries editorGroupService) as [|e0 rest] eqn:Hentries; [reflexivity|].
  cbv zeta. rewrite (filterM_keepEntry_blank _ _ _ Hq).
  unfold sortStage. now rewrite Hq.
Qed.

Lemma sortStage_perm query cache kept :
  sortStage editorGroupService query cache kept ≡ₚ kept.
Proof. unfold sortStage. destruct (truthy _); [apply sort_perm | reflexivity]. Qed.

Lemma groupStage_regrouped sorted : Forall2 regrouped sorted (groupStage editorGroupService sorted).
Proof.
  unfold groupStage. destruct (1 <? _)%nat; [apply annotate_regrouped|].
  apply Forall_Forall2_diag, Forall_forall. intros; apply regrouped_refl.
Qed.

Lemma groupStage_wrapped sorted : map wrapped (groupStage editorGroupService sorted) = map wrapped sorted.
Proof.
  induction (groupStage_regrouped sorted) as [|e r l k Hreg _ IH]; [reflexivity|].
  simpl. now rewrite IH, (regrouped_wrapped _ _ Hreg).
Qed.

Lemma groupStage_Forall (P : EditorPickerEntry.t -> Prop) sorted :
  (forall e r, regrouped e r -> P e -> P r) ->
  Forall P sorted -> Forall P (groupStage editorGroupService sorted).
Proof.
  intros Hinv. induction (groupStage_regrouped sorted) as [|e r l k Hreg _ IH];
    intros HP; [constructor|].
  apply Forall_cons in HP as [He Hl]. constructor; eauto.
Qed.

Lemma wrapped_highlighted query cache l :
  map wrapped (map (highlighted query cache) l) = map wrapped l.
Proof. rewrite map_map. now apply map_ext. Qed.
End ResultFacts.

(** * The claims *)

Section Filtering.
Import EditorPickerEntry BaseEditorPicker.
Context {scorer : FuzzyScorer}.
Variable getEditorEntries : INextEditorGroupsService.t -> list EditorPickerEntry.t.
Variable editorGroupService : INextEditorGroupsService.t.

(** The score the filter obtains for a candidate when it reaches it is the
    score the cache answers once the filter is over: a score, once cached,
    is never replaced. *)
Lemma cachedScore_when_filtered query (cache cache' : ScorerCache) kept pre e post :
  filterM (keepEntry query) (pre ++ e :: post) cache = (kept, cache') ->
  cachedScore query (snd (filterM (keepEntry query) pre cache)) e
  = cachedScore query cache' e.
Proof.
  rewrite filterM_app.
  destruct (filterM (keepEntry query) pre cache) as [kept1 c1].
  destruct (filterM (keepEntry query) (e :: post) c1) as [kept2 c2] eqn:Hrest.
  intros [= _ <-]. simpl. unfold cachedScore.
  rewrite filterM_cons in Hrest.
  destruct (keepEntry query e c1) as [k c1'] eqn:Hkeep.
  destruct (filterM (keepEntry query) post c1') as [kept3 c3] eqn:Hpost.
  injection Hrest as _ <-.
  destruct (scoreItem e query true QuickOpenItemAccessor c1) as [s cs] eqn:Hs.
  pose proof (scoreItem_stores _ _ _ _ _ _ _ Hs) as [Hsub1 Hkey].
  destruct (truthy (value query)) eqn:Hq.
  - rewrite (keepEntry_scored _ _ _ Hq), Hs in Hkeep. injection Hkeep as _ <-.
    rewrite (scoreItem_again _ _ _ _ _ _ c3 _ Hs); [reflexivity|].
    eapply filterM_keepEntry_grows, Hpost.
  - rewrite (keepEntry_blank _ _ _ Hq) in Hkeep. injection Hkeep as _ <-.
    rewrite (filterM_keepEntry_blank _ _ _ Hq) in Hpost. injection Hpost as _ <-.
    now rewrite Hs.
Qed.

(** C1.  For a non-empty query, [getResults] keeps exactly the candidates
    whose fuzzy score is nonzero: every entry of the result scores nonzero
    and carries the label and description matches of its score as
    highlights (set by [setHighlights]); the result is, up to the order the
    sort gives it, the list of the candidates that score nonzero; no
    candidate that scores zero appears in it.  The score is the one obtained
    through the score cache: what the cache answers when the query is over
    is what the filter obtained when it reached the candidate. *)
Theorem getResults_keeps_the_matches searchValue (cache : ScorerCache) :
  truthy (value (prepareQuery searchValue)) = true ->
  let query := prepareQuery searchValue in
  let candidates := getEditorEntries editorGroupService in
  match getResults getEditorEntries editorGroupService searchValue cache with
  | (None, cache') => candidates = [] /\ cache' = cache
  | (Some result, cache') =>
      Forall (fun r =>
                score (cachedScore query cache' r) <> 0%Z /\
                labelHighlights r = Some (labelMatch (cachedScore query cache' r)) /\
                descriptionHighlights r
                  = Some (descriptionMatch (cachedScore query cache' r)))
             (entries result) /\
      map wrapped (entries result)
        ≡ₚ map wrapped (List.filter (matches query cache') candidates) /\
      (forall e, e ∈ candidates -> score (cachedScore query cache' e) = 0%Z ->
                 wrapped e ∉ map wrapped (entries result)) /\
      (forall pre e post, candidates = pre ++ e :: post ->
         cachedScore query (snd (filterM (keepEntry query) pre cache)) e
         = cachedScore query cache' e)
  end.
Proof.
  intros Hq query candidates. subst query candidates.
  set (query := prepareQuery searchValue) in *.
  rewrite getResults_stages. fold query.
  destruct (getEditorEntries editorGroupService) as [|e0 rest] eqn:Hentries; [now split|].
  rewrite <- Hentries in *. clear e0 rest Hentries. cbv zeta.
  destruct (filterM (keepEntry query) _ cache) as [kept c1] eqn:Hfilter.
  simpl entries.
  destruct (filterM_keepEntry_scored _ _ _ _ _ Hq Hfilter) as [_ Hkept].
  specialize (Hkept c1 (reflexivity _)).
  assert (Hperm : map wrapped (groupStage editorGroupService (sortStage editorGroupService query c1 kept))
                  ≡ₚ map wrapped (List.filter (matches query c1) (getEditorEntries editorGroupService))).
  { rewrite groupStage_wrapped, (sortStage_perm _ _ _ kept), Hkept.
    now rewrite wrapped_highlighted. }
  split; [|split; [exact Hperm|split]].
  - apply groupStage_Forall.
    { intros e r Hreg (Hscore & Hlabel & Hdesc).
      pose proof (regrouped_wrapped _ _ Hreg) as Hw.
      rewrite (cachedScore_wrapped _ _ _ _ Hw).
      destruct Hreg as (_ & _ & -> & ->). auto. }
    rewrite (sortStage_perm _ _ _ kept), Hkept.
    apply Forall_forall. intros r Hr.
    apply list_elem_of_In, in_map_iff in Hr as (e & <- & He).
    apply filter_In in He as [_ Hmatch].
    assert (Hsc : cachedScore query c1 (highlighted query c1 e) = cachedScore query c1 e)
      by now apply cachedScore_wrapped.
    rewrite Hsc. unfold matches, truthyNum in Hmatch.
    split; [|now split].
    intros Hzero. rewrite Hzero in Hmatch. discriminate.
  - intros e He Hzero Hin.
    rewrite Hperm in Hin. apply list_elem_of_In, in_map_iff in Hin as (e' & Hw & He').
    apply filter_In in He' as [_ Hmatch].
    unfold matches, truthyNum in Hmatch.
    rewrite (cachedScore_wrapped _ _ _ _ Hw), Hzero in Hmatch. discriminate.
  - intros pre e post Hsplit. rewrite Hsplit in Hfilter.
    eapply cachedScore_when_filtered, Hfilter.
Qed.

(** C2.  For an empty or whitespace-only search string, [getResults]
    answers the full candidate list in its original order: the entry at
    each position of the result is the candidate at that position, with the
    editor, the group and the highlight fields it came with (the grouping
    pass may have assigned its group label and border); no score is
    computed and the cache is left as it is.  Candidates that come without
    highlights, as the constructor leaves them, have none in the result.
    Without candidates the answer is [null]. *)
Theorem getResults_blank_query searchValue (cache : ScorerCache) :
  whitespaceOnly searchValue = true ->
  let candidates := getEditorEntries editorGroupService in
  exists result,
    getResults getEditorEntries editorGroupService searchValue cache = (result, cache) /\
    match result with
    | None => candidates = []
    | Some model =>
        candidates <> [] /\
        Forall2 regrouped candidates (entries model) /\
        (Forall (fun e => labelHighlights e = None /\ descriptionHighlights e = None)
                candidates ->
         Forall (fun r => labelHighlights r = None /\ descriptionHighlights r = None)
                (entries model))
    end.
Proof.
  intros Hblank candidates. subst candidates.
  pose proof (prepareQuery_blank _ Hblank) as Hvalue.
  assert (Hq : truthy (value (prepareQuery searchValue)) = false) by now rewrite Hvalue.
  rewrite (getResults_blank _ _ _ _ Hq).
  destruct (getEditorEntries editorGroupService) as [|e0 rest] eqn:Hentries.
  { now exists None. }
  rewrite <- Hentries.
  eexists (Some _). split; [reflexivity|]. simpl entries.
  split; [now rewrite Hentries|].
  split; [apply groupStage_regrouped|].
  apply groupStage_Forall. intros e r (_ & _ & -> & ->). auto.
Qed.

End Filtering.

Section Sorting.
Import EditorPickerEntry BaseEditorPicker.
Context {scorer : FuzzyScorer}.
Variable getEditorEntries : INextEditorGroupsService.t -> list EditorPickerEntry.t.
Variable editorGroupService : INextEditorGroupsService.t.

Lemma ranked_regrouped groups e r : regrouped e r -> ranked groups e -> ranked groups r.
Proof. unfold ranked, group. now intros (_ & -> & _). Qed.

Lemma compareItemsByScore_wrapped query (cache : ScorerCache) a a' b b' :
  wrapped a' = wrapped a -> wrapped b' = wrapped b ->
  compareItemsByScore a' b' query true QuickOpenItemAccessor cache =
  compareItemsByScore a b query true QuickOpenItemAccessor cache.
Proof.
  intros Ha Hb. unfold compareItemsByScore.
  now rewrite (view_wrapped _ _ Ha), (view_wrapped _ _ Hb).
Qed.

(** C3.  For a non-empty query the result is the surviving entries,
    sorted: it holds the candidates that score nonzero, each as often as
    it is a candidate, and of two entries of the result the earlier one
    belongs to the older group (the group found first in the groups in
    creation order) when their groups differ, and never the score decides
    between them; when they are in one group, the scorer's comparison,
    with the picker's cache, puts the earlier one first, so that, the
    comparison being by descending score, the earlier one has the higher
    score or the same.  Hence the entries of one group are contiguous.
    The candidates' groups are among the groups of the service, and the
    scorer's comparison is a consistent one (total and transitive). *)
Theorem getResults_sorted_by_group_then_score searchValue (cache : ScorerCache) :
  truthy (value (prepareQuery searchValue)) = true ->
  let query := prepareQuery searchValue in
  let groups := INextEditorGroupsService.getGroups editorGroupService CREATION_TIME in
  Forall (ranked groups) (getEditorEntries editorGroupService) ->
  match getResults getEditorEntries editorGroupService searchValue cache with
  | (None, cache') => getEditorEntries editorGroupService = [] /\ cache' = cache
  | (Some result, cache') =>
      map wrapped (entries result)
        ≡ₚ map wrapped (List.filter (matches query cache')
                                     (getEditorEntries editorGroupService)) /\
      ((forall a b, (doCompareItems a b query true cache' <= 0)%Z \/
                    (doCompareItems b a query true cache' <= 0)%Z) ->
       (forall a b c, (doCompareItems a b query true cache' <= 0)%Z ->
                      (doCompareItems b c query true cache' <= 0)%Z ->
                      (doCompareItems a c query true cache' <= 0)%Z) ->
       (forall i j ri rj,
          (i < j)%nat -> entries result !! i = Some ri -> entries result !! j = Some rj ->
          if INextEditorGroup.same (group ri) (group rj)
          then (compareItemsByScore ri rj query true QuickOpenItemAccessor cache' <= 0)%Z
          else (indexOf groups (group ri) < indexOf groups (group rj))%Z) /\
       (forall i j k ri rj rk,
          (i < j < k)%nat ->
          entries result !! i = Some ri -> entries result !! j = Some rj ->
          entries result !! k = Some rk ->
          INextEditorGroup.same (group ri) (group rk) = true ->
          INextEditorGroup.same (group ri) (group rj) = true) /\
       ((forall a b : EditorPickerEntry.t,
           (compareItemsByScore a b query true QuickOpenItemAccessor cache' <= 0)%Z ->
           (score (cachedScore query cache' b) <= score (cachedScore query cache' a))%Z) ->
        forall i j ri rj,
          (i < j)%nat -> entries result !! i = Some ri -> entries result !! j = Some rj ->
          INextEditorGroup.same (group ri) (group rj) = true ->
          (score (cachedScore query cache' rj) <= score (cachedScore query cache' ri))%Z))
  end.
Proof.
  intros Hq query groups Hranked.
  rewrite getResults_stages. fold query.
  destruct (getEditorEntries editorGroupService) as [|e0 rest] eqn:Hentries; [now split|].
  rewrite <- Hentries in *. clear e0 rest Hentries. cbv zeta.
  destruct (filterM (keepEntry query) _ cache) as [kept c1] eqn:Hfilter.
  simpl entries.
  destruct (filterM_keepEntry_scored _ _ _ _ _ Hq Hfilter) as [_ Hkept].
  specialize (Hkept c1 (reflexivity _)).
  set (sorted := sortStage editorGroupService query c1 kept).
  split.
  { subst sorted. rewrite groupStage_wrapped, (sortStage_perm _ _ _ kept), Hkept.
    now rewrite wrapped_highlighted. }
  intros Htotal Htrans.
  assert (Hkept_ranked : Forall (ranked groups) kept).
  { rewrite Hkept. apply Forall_forall. intros r Hr.
    apply list_elem_of_In, in_map_iff in Hr as (e & <- & He).
    apply filter_In in He as [He _].
    change (ranked groups e).
    rewrite Forall_forall in Hranked. apply Hranked. now apply list_elem_of_In. }
  assert (Hsorted_ranked : Forall (ranked groups) sorted).
  { subst sorted. now rewrite (sortStage_perm _ _ _ kept). }
  assert (Hsorted : StronglySorted (before (compareEntries groups query c1)) sorted).
  { subst sorted. unfold sortStage.
    replace (truthy (value query)) with true by (symmetry; exact Hq). fold groups.
    apply (sort_sorted _ (ranked groups)); [| |assumption].
    - intros a b Ra Rb. apply compareEntries_total; auto.
    - intros a b c Ra Rb Rc. apply compareEntries_trans; auto. }
  assert (Hpairs : forall i j ri rj,
     (i < j)%nat ->
     groupStage editorGroupService sorted !! i = Some ri ->
     groupStage editorGroupService sorted !! j = Some rj ->
     ranked groups ri /\
     if INextEditorGroup.same (group ri) (group rj)
     then (compareItemsByScore ri rj query true QuickOpenItemAccessor c1 <= 0)%Z
     else (indexOf groups (group ri) < indexOf groups (group rj))%Z).
  { intros i j ri rj Hij Hi Hj.
    destruct (Forall2_lookup_r _ _ _ _ _ (groupStage_regrouped editorGroupService sorted) Hi)
      as (si & Hsi & Hregi).
    destruct (Forall2_lookup_r _ _ _ _ _ (groupStage_regrouped editorGroupService sorted) Hj)
      as (sj & Hsj & Hregj).
    assert (Rsi : ranked groups si).
    { rewrite Forall_lookup in Hsorted_ranked. eauto. }
    pose proof (StronglySorted_lookup _ _ _ _ _ _ Hsorted Hij Hsi Hsj) as Hbefore.
    pose proof (before_rank _ _ _ _ _ Rsi Hbefore) as Hcase.
    split; [eapply ranked_regrouped; eassumption|].
    rewrite (compareItemsByScore_wrapped _ _ si ri sj rj)
      by (now apply regrouped_wrapped).
    destruct Hregi as (_ & Hgi & _), Hregj as (_ & Hgj & _).
    unfold group in *. now rewrite Hgi, Hgj. }
  split; [|split].
  - intros i j ri rj Hij Hi Hj. now destruct (Hpairs i j ri rj Hij Hi Hj).
  - intros i j k ri rj rk [Hij Hjk] Hi Hj Hk Hik.
    destruct (Hpairs i j ri rj Hij Hi Hj) as [Ri Cij].
    destruct (Hpairs j k rj rk Hjk Hj Hk) as [Rj Cjk].
    destruct (INextEditorGroup.same (group ri) (group rj)) eqn:Sij; [reflexivity|].
    pose proof (indexOf_same groups _ _ Hik) as Eik.
    destruct (INextEditorGroup.same (group rj) (group rk)) eqn:Sjk.
    + pose proof (indexOf_same groups _ _ Sjk). lia.
    + lia.
  - intros Hdescending i j ri rj Hij Hi Hj Hsame.
    destruct (Hpairs i j ri rj Hij Hi Hj) as [_ Cij].
    rewrite Hsame in Cij. now apply Hdescending.
Qed.
End Sorting.

Section Grouping.
Import EditorPickerEntry BaseEditorPicker.
Context {scorer : FuzzyScorer}.
Variable getEditorEntries : INextEditorGroupsService.t -> list EditorPickerEntry.t.
Variable editorGroupService : INextEditorGroupsService.t.

Lemma unannotated_regrouped_highlights e labelMatch descriptionMatch :
  unannotated e -> unannotated (setHighlights e labelMatch descriptionMatch).
Proof. now intros [? ?]. Qed.

(** Neither the filter nor the sort assigns a group label or a border. *)
Lemma filterM_keepEntry_unannotated query l (cache cache' : ScorerCache) kept :
  filterM (keepEntry query) l cache = (kept, cache') ->
  Forall unannotated l -> Forall unannotated kept.
Proof.
  destruct (truthy (value query)) eqn:Hq.
  - intros Hrun Hl. destruct (filterM_keepEntry_scored _ _ _ _ _ Hq Hrun) as [_ Hkept].
    rewrite (Hkept cache' (reflexivity _)).
    apply Forall_forall. intros r Hr.
    apply list_elem_of_In, in_map_iff in Hr as (e & <- & He).
    apply filter_In in He as [He _].
    apply unannotated_regrouped_highlights.
    rewrite Forall_forall in Hl. apply Hl. now apply list_elem_of_In.
  - rewrite (filterM_keepEntry_blank _ _ _ Hq). now intros [= <- _].
Qed.

(** C4 (amended).  The grouping pass runs exactly when the group service
    counts more than one group ([editorGroupService.count > 1]), however
    many groups the surviving entries span.  When it runs, the first entry
    of the result gets the label of its group and [showBorder = false];
    every later entry whose predecessor belongs to another group gets the
    label of its group and [showBorder = true]; every entry that continues
    the group of its predecessor gets neither.  When it does not run, no
    entry gets a label or a border.  (The candidates come without label and
    border, as the constructor leaves them.) *)
Theorem getResults_group_annotation searchValue (cache : ScorerCache) :
  Forall unannotated (getEditorEntries editorGroupService) ->
  match getResults getEditorEntries editorGroupService searchValue cache with
  | (None, _) => getEditorEntries editorGroupService = []
  | (Some result, _) =>
      if (1 <? INextEditorGroupsService.count editorGroupService)%nat then
        (forall r, entries result !! 0%nat = Some r -> startsGroup false r) /\
        (forall i p r,
           entries result !! i = Some p -> entries result !! S i = Some r ->
           if INextEditorGroup.same (group p) (group r)
           then unannotated r
           else startsGroup true r)
      else Forall unannotated (entries result)
  end.
Proof.
  intros Hfresh. rewrite getResults_stages.
  destruct (getEditorEntries editorGroupService) as [|e0 rest] eqn:Hentries; [reflexivity|].
  rewrite <- Hentries in *. clear e0 rest Hentries. cbv zeta.
  destruct (filterM (keepEntry _) _ cache) as [kept c1] eqn:Hfilter.
  simpl entries.
  pose proof (filterM_keepEntry_unannotated _ _ _ _ _ Hfilter Hfresh) as Hkept.
  rewrite <- (sortStage_perm editorGroupService (prepareQuery searchValue) c1 kept) in Hkept.
  unfold groupStage.
  destruct (1 <? INextEditorGroupsService.count editorGroupService)%nat; [|assumption].
  split.
  - intros r Hr.
    destruct (sortStage _ _ _ kept) as [|e rest]; [discriminate|].
    apply Forall_cons in Hkept as [He _].
    exact (annotate_head None e rest r He Hr).
  - intros i p r. now apply annotate_adjacent.
Qed.
End Grouping.

(** C4, as the claim states it, fails: with two groups in the workbench the
    pass runs for the picker of the active group, whose entries all belong
    to one group, and labels the first of them. *)
Lemma grouping_runs_for_a_single_group :
  exists result cache',
    ActiveEditorGroupPicker.getResults (scorer := Fixture.substringScorer)
      Fixture.workbench "" ∅ = (Some result, cache') /\
    Forall (fun e => EditorPickerEntry.group e = Fixture.group1) (entries result) /\
    exists r, entries result !! 0%nat = Some r /\
              EditorPickerEntry.groupLabel r = Some "Group 1" /\
              EditorPickerEntry.showBorder r = Some false.
Proof.
  eexists _, _. split; [vm_compute; reflexivity|].
  split; [repeat constructor|].
  eexists. split; [reflexivity|]. split; reflexivity.
Qed.

Lemma getResults_group_annotation_witness :
  exists result cache',
    AllEditorsPicker.getResults (scorer := Fixture.substringScorer)
      Fixture.workbench "foo" ∅ = (Some result, cache') /\
    Forall unannotated (AllEditorsPicker.getEditorEntries Fixture.workbench) /\
    (forall r, entries result !! 0%nat = Some r -> startsGroup false r) /\
    (forall i p r,
       entries result !! i = Some p -> entries result !! S i = Some r ->
       if INextEditorGroup.same (EditorPickerEntry.group p) (EditorPickerEntry.group r)
       then unannotated r
       else startsGroup true r).
Proof.
  assert (Hfresh : Forall unannotated (AllEditorsPicker.getEditorEntries Fixture.workbench))
    by (repeat constructor).
  pose proof (getResults_group_annotation (scorer := Fixture.substringScorer)
                AllEditorsPicker.getEditorEntries Fixture.workbench "foo" ∅ Hfresh) as Hrule.
  unfold AllEditorsPicker.getResults.
  destruct (BaseEditorPicker.getResults _ _ _ _) as [[result|] cache']; [|discriminate Hrule].
  exists result, cache'. split; [reflexivity|]. split; [exact Hfresh|]. exact Hrule.
Defined.

Section Activation.
Import EditorPickerEntry.
Context {World IEntryRunContext : Type} {host : Host World IEntryRunContext}.

(** C5 (amended).  Activating an entry ([run] with [Mode.OPEN]) asks the
    owning group, once, to open the wrapped editor, and answers [true]
    whatever the group answers: the outcome of the delegation is not part
    of the result. *)
Theorem run_open_answers_true (e : EditorPickerEntry.t) (context : IEntryRunContext)
    (w : World) :
  run e OPEN context w = (true, snd (openEditor (group e) (editor e) w)).
Proof.
  unfold run, runOpen, group. now destruct (openEditor (_group e) (editor e) w).
Qed.
End Activation.

Section CacheReset.
Import EditorPickerEntry BaseEditorPicker.
Context {scorer : FuzzyScorer}.

(** What the filter leaves in the cache was there before, or is the score
    of an entry it went over. *)
Lemma filterM_keepEntry_keys query l (cache cache' : ScorerCache) kept key :
  filterM (keepEntry query) l cache = (kept, cache') ->
  is_Some (cache' !! key) ->
  is_Some (cache !! key) \/ key ∈ map (entryKey query) l.
Proof.
  destruct (truthy (value query)) eqn:Hq.
  2:{ rewrite (filterM_keepEntry_blank _ _ _ Hq). intros [= _ <-]. now left. }
  revert cache kept. induction l as [|e rest IH]; intros cache kept.
  - intros [= _ <-]. now left.
  - rewrite filterM_cons, (keepEntry_scored _ _ _ Hq).
    destruct (scoreItem e query true QuickOpenItemAccessor cache) as [s c1] eqn:Hs.
    destruct (filterM (keepEntry query) rest c1) as [rest' c2] eqn:Hrest.
    intros [= _ <-] Hkey.
    destruct (IH _ _ Hrest Hkey) as [Hc1|Hin].
    + unfold scoreItem in Hs. fold (entryKey query e) in Hs.
      destruct (cache !! entryKey query e) eqn:Hlook; injection Hs as _ <-.
      * now left.
      * destruct (decide (entryKey query e = key)) as [<-|Hne].
        -- right. simpl. apply list_elem_of_here.
        -- left. now rewrite lookup_insert_ne in Hc1.
    + right. simpl. now apply list_elem_of_further.
Qed.

(** With a non-empty query the filter leaves a score under the key of
    every entry it went over. *)
Lemma filterM_keepEntry_stores query l (cache cache' : ScorerCache) kept e :
  truthy (value query) = true ->
  e ∈ l ->
  filterM (keepEntry query) l cache = (kept, cache') ->
  is_Some (cache' !! entryKey query e).
Proof.
  intros Hq He. revert cache kept.
  induction l as [|x rest IH]; intros cache kept; [now apply elem_of_nil in He|].
  rewrite filterM_cons, (keepEntry_scored _ _ _ Hq).
  destruct (scoreItem x query true QuickOpenItemAccessor cache) as [s c1] eqn:Hs.
  destruct (filterM (keepEntry query) rest c1) as [rest' c2] eqn:Hrest.
  intros [= _ <-].
  apply elem_of_cons in He as [->|He]; [|now apply (IH He c1 rest')].
  pose proof (scoreItem_stores _ _ _ _ _ _ _ Hs) as [_ Hstored].
  exists s. eapply lookup_weaken; [exact Hstored|].
  eapply filterM_keepEntry_grows, Hrest.
Qed.

(** A score the filter leaves in the cache was there before, or is the
    score the scorer computes for an entry the filter went over, under the
    key of that entry. *)
Lemma filterM_keepEntry_scores query l (cache cache' : ScorerCache) kept key s :
  filterM (keepEntry query) l cache = (kept, cache') ->
  cache' !! key = Some s ->
  cache !! key = Some s \/
  exists e, e ∈ l /\ entryKey query e = key /\
            s = doScoreItem (viewOf QuickOpenItemAccessor e) query true.
Proof.
  destruct (truthy (value query)) eqn:Hq.
  2:{ rewrite (filterM_keepEntry_blank _ _ _ Hq). intros [= _ <-]. now left. }
  revert cache kept. induction l as [|e rest IH]; intros cache kept.
  - intros [= _ <-]. now left.
  - rewrite filterM_cons, (keepEntry_scored _ _ _ Hq).
    destruct (scoreItem e query true QuickOpenItemAccessor cache) as [s0 c1] eqn:Hs.
    destruct (filterM (keepEntry query) rest c1) as [rest' c2] eqn:Hrest.
    intros [= _ <-] Hkey.
    destruct (IH _ _ Hrest Hkey) as [Hc1|(e' & He' & Hk & Hscore)].
    + unfold scoreItem in Hs. fold (entryKey query e) in Hs.
      destruct (cache !! entryKey query e) eqn:Hlook; injection Hs as _ <-.
      * now left.
      * destruct (decide (entryKey query e = key)) as [Heq|Hne].
        -- right. exists e. split; [apply list_elem_of_here|]. split; [exact Heq|].
           rewrite <- Heq, lookup_insert_eq in Hc1. now injection Hc1 as <-.
        -- left. now rewrite lookup_insert_ne in Hc1.
    + right. exists e'. split; [now apply list_elem_of_further | now split].
Qed.

(** C6 (amended).  [onClose] replaces the score cache with an empty one,
    whether the picker was canceled or not and whatever the cache held.  A
    query issued next, for every search string, uses no score from before
    the close.  When its filter reaches a candidate whose key no earlier
    candidate has, the cache holds no score for it, and scoring it is a
    miss: the score is computed by the scorer and stored.  When an earlier
    candidate has the same key (the same editor shown in another group),
    the score it finds is the one the scorer computed for that candidate in
    this very query.  Either way the cache the query leaves holds, under
    the key of the candidate, a score the scorer computed in this query. *)
Theorem onClose_then_query_rescored (canceled : bool) (cache : ScorerCache)
    (getEditorEntries : INextEditorGroupsService.t -> list EditorPickerEntry.t)
    (editorGroupService : INextEditorGroupsService.t)
    (searchValue : string) pre e post :
  let query := prepareQuery searchValue in
  getEditorEntries editorGroupService = pre ++ e :: post ->
  let closed := snd (onClose canceled cache) in
  let reached := snd (filterM (keepEntry query) pre closed) in
  closed = ∅ /\
  (entryKey query e ∉ map (entryKey query) pre ->
   reached !! entryKey query e = None /\
   scoreItem e query true QuickOpenItemAccessor reached =
     (doScoreItem (viewOf QuickOpenItemAccessor e) query true,
      <[entryKey query e := doScoreItem (viewOf QuickOpenItemAccessor e) query true]>
        reached)) /\
  (forall cached,
     reached !! entryKey query e = Some cached ->
     exists e', e' ∈ pre /\ entryKey query e' = entryKey query e /\
                cached = doScoreItem (viewOf QuickOpenItemAccessor e') query true) /\
  (truthy (value query) = true ->
   exists e', e' ∈ getEditorEntries editorGroupService /\
              entryKey query e' = entryKey query e /\
              snd (getResults getEditorEntries editorGroupService searchValue closed)
                !! entryKey query e
              = Some (doScoreItem (viewOf QuickOpenItemAccessor e') query true)).
Proof.
  intros query Hsplit closed reached.
  assert (Hclosed : closed = ∅) by reflexivity.
  assert (Hfound : forall cached,
            reached !! entryKey query e = Some cached ->
            exists e', e' ∈ pre /\ entryKey query e' = entryKey query e /\
                       cached = doScoreItem (viewOf QuickOpenItemAccessor e') query true).
  { intros cached Hlook. subst reached.
    destruct (filterM (keepEntry query) pre closed) as [kept c1] eqn:Hfilter.
    simpl in Hlook.
    destruct (filterM_keepEntry_scores _ _ _ _ _ _ _ Hfilter Hlook) as [Hold|Hnew];
      [|exact Hnew].
    rewrite Hclosed, lookup_empty in Hold. discriminate Hold. }
  assert (Hfirst : entryKey query e ∉ map (entryKey query) pre ->
                   reached !! entryKey query e = None).
  { intros Hnew. destruct (reached !! entryKey query e) as [cached|] eqn:Hlook;
      [|reflexivity].
    exfalso. destruct (Hfound cached eq_refl) as (e' & He' & Hkey & _).
    apply Hnew. rewrite <- Hkey.
    apply list_elem_of_In, in_map, list_elem_of_In, He'. }
  split; [exact Hclosed|]. split; [|split; [exact Hfound|]].
  - intros Hnew. split; [now apply Hfirst|].
    apply scoreItem_miss. now apply Hfirst.
  - intros Hq.
    assert (Hlast : exists c3 kept3 k c1',
              keepEntry query e reached = (k, c1') /\
              filterM (keepEntry query) post c1' = (kept3, c3) /\
              snd (getResults getEditorEntries editorGroupService searchValue closed) = c3).
    { rewrite getResults_cache, Hsplit, filterM_app. fold query.
      subst reached. destruct (filterM (keepEntry query) pre closed) as [kept1 c1].
      cbv beta iota. rewrite filterM_cons. cbn [snd].
      destruct (keepEntry query e c1) as [k c1'] eqn:Hkeep.
      destruct (filterM (keepEntry query) post c1') as [kept3 c3] eqn:Hpost.
      exists c3, kept3, k, c1'. now repeat split. }
    destruct Hlast as (c3 & kept3 & k & c1' & Hkeep & Hpost & ->).
    pose proof (filterM_keepEntry_grows _ _ _ _ _ Hpost) as Hgrows.
    rewrite (keepEntry_scored _ _ _ Hq) in Hkeep.
    destruct (reached !! entryKey query e) as [cached|] eqn:Hlook.
    + destruct (Hfound cached eq_refl) as (e' & He' & Hkey & ->).
      exists e'. split; [|split; [exact Hkey|]].
      * rewrite Hsplit. apply elem_of_app. now left.
      * rewrite (scoreItem_hit QuickOpenItemAccessor e query true reached _ Hlook) in Hkeep.
        injection Hkeep as _ <-. eapply lookup_weaken; [exact Hlook | exact Hgrows].
    + exists e. split; [|split; [reflexivity|]].
      * rewrite Hsplit. apply elem_of_app. right. apply list_elem_of_here.
      * rewrite (scoreItem_miss QuickOpenItemAccessor e query true reached Hlook) in Hkeep.
        injection Hkeep as _ <-.
        eapply lookup_weaken; [apply lookup_insert_eq | exact Hgrows].
Qed.

(** C7.  Querying twice gives the same answer: with the candidates, the
    groups and the scorer unchanged, a second [getResults] for the same
    search string, run on the cache the first one left, answers the same
    entries in the same order with the same highlights (and the same group
    labels and borders), and leaves that cache as it is. *)
Theorem getResults_twice
    (getEditorEntries : INextEditorGroupsService.t -> list EditorPickerEntry.t)
    (editorGroupService : INextEditorGroupsService.t)
    (searchValue : string) (cache : ScorerCache) :
  let (result, cache') := getResults getEditorEntries editorGroupService searchValue cache in
  getResults getEditorEntries editorGroupService searchValue cache' = (result, cache').
Proof.
  destruct (getResults getEditorEntries editorGroupService searchValue cache)
    as [result cache'] eqn:Hrun.
  rewrite getResults_stages in Hrun |- *.
  destruct (getEditorEntries editorGroupService) as [|e0 rest] eqn:Hentries.
  { now injection Hrun as <- <-. }
  rewrite <- Hentries in *. cbv zeta in Hrun |- *.
  destruct (filterM (keepEntry _) _ cache) as [kept c1] eqn:Hfilter.
  injection Hrun as <- <-.
  now rewrite (filterM_keepEntry_again _ _ _ _ c1 _ Hfilter (reflexivity _)).
Qed.
End CacheReset.

(** ** Auto focus *)

Lemma truthy_nonempty s : truthy s = true <-> s <> "".
Proof. destruct s; simpl; split; congruence. Qed.

Lemma truthy_empty s : truthy s = false <-> s = "".
Proof. destruct s; simpl; split; congruence. Qed.

Lemma isShiftBinding_spec k :
  ActiveEditorGroupPicker.isShiftBinding k = true <->
  snd (getParts k) = None /\ shiftKey (fst (getParts k)) = true.
Proof.
  unfold ActiveEditorGroupPicker.isShiftBinding.
  destruct (getParts k) as [firstPart [chordPart|]]; simpl; split; try tauto.
  - discriminate.
  - now intros [? _].
Qed.

Lemma existsb_isShiftBinding configuration :
  existsb ActiveEditorGroupPicker.isShiftBinding (keybindings configuration) = true <->
  shiftNavigate configuration.
Proof.
  unfold shiftNavigate. rewrite existsb_exists. split.
  - intros (k & Hin & Hk). exists k. split; [now apply list_elem_of_In|].
    now apply isShiftBinding_spec.
  - intros (k & Hin & Hk). exists k. split; [now apply list_elem_of_In|].
    now apply isShiftBinding_spec.
Qed.

(** C8.  The auto focus of the picker of the active group: the first entry
    whenever the search string is non-empty or there is no quick-navigate
    configuration; otherwise the last entry if some quick-navigate
    keybinding is not a chord and has the shift modifier; otherwise the
    first entry when the group counts one editor and the second when it
    counts more. *)
Theorem getAutoFocus_active_group (editorGroupService : INextEditorGroupsService.t)
    (searchValue : string) (context : AutoFocusContext) :
  let focus := ActiveEditorGroupPicker.getAutoFocus editorGroupService searchValue context in
  let editors := INextEditorGroup.count (ActiveEditorGroupPicker.group editorGroupService) in
  (searchValue <> "" \/ quickNavigateConfiguration context = None -> focusFirst focus) /\
  (forall configuration,
     searchValue = "" -> quickNavigateConfiguration context = Some configuration ->
     (shiftNavigate configuration -> focusLast focus) /\
     (~ shiftNavigate configuration ->
      (editors = 1%nat -> focusFirst focus) /\ ((1 < editors)%nat -> focusSecond focus))).
Proof.
  intros focus editors. subst focus editors.
  unfold ActiveEditorGroupPicker.getAutoFocus. split.
  - intros [Hs%truthy_nonempty | Hnone].
    + rewrite Hs. simpl. now repeat split.
    + rewrite Hnone. rewrite orb_true_r. now repeat split.
  - intros configuration -> ->. simpl.
    destruct (existsb _ _) eqn:Hshift.
    + apply existsb_isShiftBinding in Hshift. split; [|tauto].
      intros _. now repeat split.
    + split.
      * intros Hnav%existsb_isShiftBinding. congruence.
      * intros _. split.
        -- intros ->. now repeat split.
        -- intros Hmore. unfold focusSecond; simpl.
           destruct (INextEditorGroup.count _) as [|[|n]]; [lia|lia|].
           now repeat split.
Qed.

Section AllGroups.
Context {handler : QuickOpenHandler}.

(** C9 (amended).  The auto focus of the picker of all groups: the first
    entry for every non-empty search string; for the empty search string,
    what [getAutoFocus] of [QuickOpenHandler] answers for the same
    arguments ([super] is [BaseEditorPicker], which defines none): an
    answer that does not depend on the group service, hence not on the
    editors of the active group. *)
Theorem getAutoFocus_all_groups (editorGroupService : INextEditorGroupsService.t)
    (searchValue : string) (context : AutoFocusContext) :
  (searchValue <> "" ->
   focusFirst (AllEditorsPicker.getAutoFocus editorGroupService searchValue context)) /\
  (searchValue = "" ->
   AllEditorsPicker.getAutoFocus editorGroupService searchValue context
     = handlerGetAutoFocus searchValue context /\
   forall otherService,
     AllEditorsPicker.getAutoFocus otherService searchValue context
     = AllEditorsPicker.getAutoFocus editorGroupService searchValue context).
Proof.
  unfold AllEditorsPicker.getAutoFocus. split.
  - intros Hs%truthy_nonempty. rewrite Hs. now repeat split.
  - intros ->. simpl. now split.
Qed.
End AllGroups.

Section ActiveGroupEntries.
Import EditorPickerEntry.
Context {scorer : FuzzyScorer}.

Lemma map_editor_createInstance group editors :
  map editor (map (fun e => createInstance e group) editors) = editors.
Proof. rewrite map_map. simpl. apply map_id. Qed.

(** C10.  The picker of the active group builds its candidates from the
    editors of the active group in most-recently-active order, one entry an
    editor, each in the active group.  Hence, for an empty (or
    whitespace-only) query, the editors of the result are the editors of
    the group in that order, the most recently active one first. *)
Theorem getResults_most_recently_active (editorGroupService : INextEditorGroupsService.t)
    (searchValue : string) (cache : ScorerCache) :
  let active := INextEditorGroupsService.activeGroup editorGroupService in
  let recent := INextEditorGroup.getEditors active MOST_RECENTLY_ACTIVE in
  map editor (ActiveEditorGroupPicker.getEditorEntries editorGroupService) = recent /\
  Forall (fun e => group e = active)
         (ActiveEditorGroupPicker.getEditorEntries editorGroupService) /\
  (whitespaceOnly searchValue = true ->
   exists result,
     ActiveEditorGroupPicker.getResults editorGroupService searchValue cache
       = (result, cache) /\
     match result with
     | None => recent = []
     | Some model =>
         map editor (entries model) = recent /\
         Forall (fun r => group r = active) (entries model) /\
         head (map editor (entries model)) = head recent
     end).
Proof.
  intros active recent.
  assert (Heditors :
    map editor (ActiveEditorGroupPicker.getEditorEntries editorGroupService) = recent)
    by apply map_editor_createInstance.
  assert (Hgroups : Forall (fun e => group e = active)
                      (ActiveEditorGroupPicker.getEditorEntries editorGroupService)).
  { apply Forall_forall. intros e He.
    apply list_elem_of_In, in_map_iff in He as (x & <- & _). reflexivity. }
  split; [exact Heditors|]. split; [exact Hgroups|].
  intros Hblank.
  assert (Hq : truthy (value (prepareQuery searchValue)) = false)
    by now rewrite (prepareQuery_blank _ Hblank).
  unfold ActiveEditorGroupPicker.getResults. rewrite (getResults_blank _ _ _ _ Hq).
  eexists. split; [reflexivity|].
  destruct (ActiveEditorGroupPicker.getEditorEntries editorGroupService)
    as [|e0 rest] eqn:Hentries; [now rewrite <- Heditors|].
  rewrite <- Hentries in *. simpl entries.
  pose proof (groupStage_regrouped editorGroupService
                (ActiveEditorGroupPicker.getEditorEntries editorGroupService)) as Hreg.
  assert (Hsame : map editor (groupStage editorGroupService
                    (ActiveEditorGroupPicker.getEditorEntries editorGroupService)) = recent /\
                  Forall (fun r => group r = active)
                    (groupStage editorGroupService
                       (ActiveEditorGroupPicker.getEditorEntries editorGroupService))).
  { rewrite <- Heditors. clear Heditors Hentries.
    induction Hreg as [|e r l k (He & Hg & _) _ IH]; [now split|].
    apply Forall_cons in Hgroups as [Hge Hgl].
    destruct (IH Hgl) as [IHe IHg]. split.
    - simpl. now rewrite He, IHe.
    - constructor; [|exact IHg]. unfold group in *. now rewrite Hg. }
  destruct Hsame as [He Hg]. now rewrite He.
Qed.
End ActiveGroupEntries.

(** * Further properties *)

Section Candidates.
Import EditorPickerEntry BaseEditorPicker.
Context {scorer : FuzzyScorer}.
Variable getEditorEntries : INextEditorGroupsService.t -> list EditorPickerEntry.t.
Variable editorGroupService : INextEditorGroupsService.t.

Lemma map_filter_sublist {A B} (f : A -> B) (p : A -> bool) (l : list A) :
  map f (List.filter p l) `sublist_of` map f l.
Proof.
  induction l as [|x rest IH]; simpl; [constructor|].
  destruct (p x); simpl; now constructor.
Qed.

(** What the filter keeps, up to the highlights, is a sublist of the
    candidates. *)
Lemma filterM_keepEntry_sublist query l (cache cache' : ScorerCache) kept :
  filterM (keepEntry query) l cache = (kept, cache') ->
  map wrapped kept `sublist_of` map wrapped l.
Proof.
  destruct (truthy (value query)) eqn:Hq.
  - intros Hrun. destruct (filterM_keepEntry_scored _ _ _ _ _ Hq Hrun) as [_ Hkept].
    rewrite (Hkept cache' (reflexivity _)), wrapped_highlighted.
    apply map_filter_sublist.
  - rewrite (filterM_keepEntry_blank _ _ _ Hq). now intros [= <- _].
Qed.

(** The entries of a model, up to highlights, labels and borders, are
    candidates, none of them more often than it is a candidate. *)
Lemma getResults_wrapped searchValue (cache : ScorerCache) result :
  fst (getResults getEditorEntries editorGroupService searchValue cache) = Some result ->
  map wrapped (entries result) ⊆+ map wrapped (getEditorEntries editorGroupService).
Proof.
  rewrite getResults_stages.
  destruct (getEditorEntries editorGroupService) as [|e0 rest] eqn:Hentries; [discriminate|].
  rewrite <- Hentries. cbv zeta.
  destruct (filterM (keepEntry _) _ cache) as [kept c1] eqn:Hfilter.
  simpl. intros [= <-]. simpl.
  rewrite groupStage_wrapped, (sortStage_perm _ _ _ kept).
  apply sublist_submseteq. eapply filterM_keepEntry_sublist, Hfilter.
Qed.

(** X1.  [getResults] answers [null] exactly when the picker has no
    candidate, whatever the search string; it leaves the cache untouched
    then. *)
Theorem getResults_null_without_candidates searchValue (cache : ScorerCache) :
  (fst (getResults getEditorEntries editorGroupService searchValue cache) = None <->
   getEditorEntries editorGroupService = []) /\
  (getEditorEntries editorGroupService = [] ->
   snd (getResults getEditorEntries editorGroupService searchValue cache) = cache).
Proof.
  rewrite getResults_stages.
  destruct (getEditorEntries editorGroupService) as [|e0 rest]; [now repeat split|].
  cbv zeta. destruct (filterM _ _ cache) as [kept c1]. simpl.
  repeat split; discriminate.
Qed.

(** X2.  With candidates and a non-empty query, the model is empty, and
    not [null], exactly when no candidate scores nonzero. *)
Theorem getResults_empty_model searchValue (cache : ScorerCache) :
  truthy (value (prepareQuery searchValue)) = true ->
  getEditorEntries editorGroupService <> [] ->
  match getResults getEditorEntries editorGroupService searchValue cache with
  | (None, _) => False
  | (Some result, cache') =>
      entries result = [] <->
      Forall (fun e => matches (prepareQuery searchValue) cache' e = false)
             (getEditorEntries editorGroupService)
  end.
Proof.
  intros Hq Hsome. rewrite getResults_stages.
  destruct (getEditorEntries editorGroupService) as [|e0 rest] eqn:Hentries; [congruence|].
  rewrite <- Hentries in *. clear e0 rest Hentries Hsome. cbv zeta.
  destruct (filterM (keepEntry _) _ cache) as [kept c1] eqn:Hfilter. simpl entries.
  destruct (filterM_keepEntry_scored _ _ _ _ _ Hq Hfilter) as [_ Hkept].
  specialize (Hkept c1 (reflexivity _)).
  set (query := prepareQuery searchValue) in *.
  assert (Hlen : length (groupStage editorGroupService
                           (sortStage editorGroupService query c1 kept))
                 = length (List.filter (matches query c1)
                                       (getEditorEntries editorGroupService))).
  { rewrite <- (Forall2_length _ _ _ (groupStage_regrouped editorGroupService _)).
    rewrite (Permutation_length (sortStage_perm _ _ _ kept)), Hkept.
    apply length_map. }
  split.
  - intros Hnil. rewrite Hnil in Hlen. simpl in Hlen.
    apply Forall_forall. intros e He.
    destruct (matches query c1 e) eqn:Hmatch; [|reflexivity].
    assert (Hin : In e (List.filter (matches query c1) (getEditorEntries editorGroupService))).
    { apply filter_In. split; [now apply list_elem_of_In | exact Hmatch]. }
    destruct (List.filter _ _); [destruct Hin | discriminate Hlen].
  - intros Hnone.
    assert (Hfilter_nil : List.filter (matches query c1)
                            (getEditorEntries editorGroupService) = []).
    { clear Hlen Hkept Hfilter.
      induction Hnone as [|e l He _ IH]; simpl; [reflexivity|]. now rewrite He. }
    rewrite Hfilter_nil in Hlen. simpl in Hlen.
    now destruct (groupStage _ _).
Qed.

(** X3.  Whatever the search string, [getResults] offers candidates only:
    the entries of the model, told by the editor and the group they wrap,
    are among the candidates, and none occurs more often in the model than
    among the candidates. *)
Theorem getResults_offers_candidates_only searchValue (cache : ScorerCache) :
  match fst (getResults getEditorEntries editorGroupService searchValue cache) with
  | None => getEditorEntries editorGroupService = []
  | Some result =>
      map wrapped (entries result) ⊆+ map wrapped (getEditorEntries editorGroupService) /\
      (length (entries result) <= length (getEditorEntries editorGroupService))%nat
  end.
Proof.
  destruct (fst (getResults getEditorEntries editorGroupService searchValue cache))
    as [result|] eqn:Hrun.
  - pose proof (getResults_wrapped _ _ _ Hrun) as Hsub. split; [exact Hsub|].
    apply submseteq_length in Hsub. now rewrite !length_map in Hsub.
  - revert Hrun. rewrite getResults_stages.
    destruct (getEditorEntries editorGroupService) as [|e0 rest]; [reflexivity|].
    cbv zeta. now destruct (filterM _ _ cache).
Qed.

Context {presentation : Presentation}.

(** An entry presents itself by the editor and the group it wraps. *)
Lemma presentsAs_wrapped e r : wrapped r = wrapped e -> presentsAs e r.
Proof.
  unfold wrapped. intros [= Heditor Hgroup].
  unfold presentsAs, getLabel, getDescription, getIcon, getResource, getAriaLabel,
    getLabelOptions, getLabel, getResource.
  now rewrite Heditor, Hgroup.
Qed.

(** X4.  Filtering, sorting and grouping never change what an entry
    presents: every entry of the model has the label, description, icon,
    resource, aria label and label options of a candidate that wraps the
    same editor in the same group. *)
Theorem getResults_presents_candidates searchValue (cache : ScorerCache) :
  match fst (getResults getEditorEntries editorGroupService searchValue cache) with
  | None => getEditorEntries editorGroupService = []
  | Some result =>
      Forall (fun r => exists e, e ∈ getEditorEntries editorGroupService /\
                                 editor r = editor e /\ group r = group e /\
                                 presentsAs e r)
             (entries result)
  end.
Proof.
  destruct (fst (getResults getEditorEntries editorGroupService searchValue cache))
    as [result|] eqn:Hrun.
  - pose proof (getResults_wrapped _ _ _ Hrun) as Hsub.
    apply Forall_forall. intros r Hr.
    assert (Hin : wrapped r ∈ map wrapped (getEditorEntries editorGroupService)).
    { eapply elem_of_submseteq; [|exact Hsub].
      apply list_elem_of_In, in_map, list_elem_of_In, Hr. }
    apply list_elem_of_In, in_map_iff in Hin as (e & Hw & He).
    exists e. split; [now apply list_elem_of_In|].
    pose proof (presentsAs_wrapped e r (eq_sym Hw)) as Hpresents.
    unfold wrapped, group in *. injection Hw as Heditor Hgroup.
    now rewrite Heditor, Hgroup.
  - revert Hrun. rewrite getResults_stages.
    destruct (getEditorEntries editorGroupService) as [|e0 rest]; [reflexivity|].
    cbv zeta. now destruct (filterM _ _ cache).
Qed.
End Candidates.

(** X5.  The auto focus of the picker of the active group asks for one
    entry at most.  It asks for none (neither the first, nor the second,
    nor the last) exactly when the search string is empty, a quick-navigate
    configuration without shift binding is present and the group counts no
    editor; in every other case it asks for exactly one of the first, the
    second and the last entry. *)
Theorem getAutoFocus_active_group_one_target (editorGroupService : INextEditorGroupsService.t)
    (searchValue : string) (context : AutoFocusContext) :
  let focus := ActiveEditorGroupPicker.getAutoFocus editorGroupService searchValue context in
  let emptyGroup :=
    searchValue = "" /\
    (exists configuration,
       quickNavigateConfiguration context = Some configuration /\
       ~ shiftNavigate configuration) /\
    INextEditorGroup.count (ActiveEditorGroupPicker.group editorGroupService) = 0%nat in
  (emptyGroup ->
   autoFocusFirstEntry focus = Some false /\
   autoFocusSecondEntry focus = Some false /\
   autoFocusLastEntry focus = None /\
   ~ focusFirst focus /\ ~ focusSecond focus /\ ~ focusLast focus) /\
  (~ emptyGroup ->
   (focusFirst focus /\ ~ focusSecond focus /\ ~ focusLast focus) \/
   (focusSecond focus /\ ~ focusFirst focus /\ ~ focusLast focus) \/
   (focusLast focus /\ ~ focusFirst focus /\ ~ focusSecond focus)).
Proof.
  intros focus emptyGroup. subst focus emptyGroup.
  unfold ActiveEditorGroupPicker.getAutoFocus, focusFirst, focusSecond, focusLast.
  split.
  - intros (-> & (configuration & -> & Hplain) & ->). simpl.
    destruct (existsb _ _) eqn:Hshift.
    { apply existsb_isShiftBinding in Hshift. contradiction. }
    simpl. repeat split; try reflexivity; intros (Habsurd & _); discriminate Habsurd.
  - intros Hsome.
    destruct (truthy searchValue) eqn:Hs.
    { left. simpl. repeat split; try discriminate; intros (Habsurd & _); discriminate Habsurd. }
    apply truthy_empty in Hs.
    destruct (quickNavigateConfiguration context) as [configuration|] eqn:Hconf.
    2:{ left. simpl. repeat split; try discriminate;
          intros (Habsurd & _); discriminate Habsurd. }
    simpl. destruct (existsb _ _) eqn:Hshift.
    { right; right. repeat split; try discriminate;
        intros (Habsurd & _); discriminate Habsurd. }
    destruct (INextEditorGroup.count _) as [|[|n]] eqn:Hcount.
    + exfalso. apply Hsome. split; [exact Hs|]. split; [|reflexivity].
      exists configuration. split; [reflexivity|].
      intros Hnav%existsb_isShiftBinding. congruence.
    + left. simpl. repeat split; try discriminate;
        intros (Habsurd & _); discriminate Habsurd.
    + right; left. simpl. repeat split; try discriminate;
        intros (Habsurd & _); discriminate Habsurd.
Qed.

Section Headers.
Import EditorPickerEntry BaseEditorPicker.
Context {scorer : FuzzyScorer}.

(** What holds of the editor and group of every candidate holds of those
    of every entry the filter keeps. *)
Lemma filterM_keepEntry_Forall (P : EditorInput.t * INextEditorGroup.t -> Prop)
    query l (cache cache' : ScorerCache) kept :
  filterM (keepEntry query) l cache = (kept, cache') ->
  Forall (fun e => P (wrapped e)) l -> Forall (fun e => P (wrapped e)) kept.
Proof.
  intros Hrun Hl. pose proof (filterM_keepEntry_sublist _ _ _ _ _ Hrun) as Hsub.
  apply Forall_forall. intros r Hr.
  assert (Hin : wrapped r ∈ map wrapped l).
  { eapply elem_of_submseteq; [|apply sublist_submseteq, Hsub].
    apply list_elem_of_In, in_map, list_elem_of_In, Hr. }
  apply list_elem_of_In, in_map_iff in Hin as (e & <- & He).
  rewrite Forall_forall in Hl. apply Hl. now apply list_elem_of_In.
Qed.

(** The walk leaves a run of entries of the group it comes from as they
    are. *)
Lemma annotate_same_group g l rest :
  Forall (fun e => INextEditorGroup.same g (group e) = true) l ->
  annotate (Some g) (l ++ rest) = l ++ annotate (Some g) rest.
Proof.
  induction 1 as [|e l He _ IH]; [reflexivity|].
  simpl. rewrite He. simpl. now rewrite IH.
Qed.

(** The walk over entries of one group labels the first and no other. *)
Lemma annotate_one_group g l :
  Forall (fun e => group e = g) l -> annotate None l = markFirst false l.
Proof.
  intros Hl. destruct l as [|e rest]; [reflexivity|].
  apply Forall_cons in Hl as [He Hrest]. simpl. f_equal.
  rewrite <- (app_nil_r rest) at 1. rewrite annotate_same_group; [apply app_nil_r|].
  eapply Forall_impl; [exact Hrest|]. intros x ->. rewrite He. apply same_refl.
Qed.

(** Where the groups of a list are contiguous, the walk labels no entry
    that comes after an entry of its group. *)
Lemma annotate_labels_once lastGroup l :
  (forall i j k a b c,
     (i < j < k)%nat -> l !! i = Some a -> l !! j = Some b -> l !! k = Some c ->
     INextEditorGroup.same (group a) (group c) = true ->
     INextEditorGroup.same (group a) (group b) = true) ->
  Forall unannotated l ->
  forall i j p r,
    (i < j)%nat ->
    annotate lastGroup l !! i = Some p -> annotate lastGroup l !! j = Some r ->
    INextEditorGroup.same (group p) (group r) = true ->
    unannotated r.
Proof.
  intros Hcontiguous Hl i j p r Hij Hp Hr Hsame.
  destruct j as [|j]; [lia|].
  assert (Hq : exists q, annotate lastGroup l !! j = Some q).
  { apply lookup_lt_is_Some. apply lookup_lt_Some in Hr. lia. }
  destruct Hq as [q Hq].
  pose proof (annotate_adjacent lastGroup l j q r Hl Hq Hr) as Hcase.
  assert (Hqr : INextEditorGroup.same (group q) (group r) = true).
  { destruct (decide (i = j)) as [->|Hne].
    - rewrite Hp in Hq. now injection Hq as <-.
    - pose proof (annotate_regrouped lastGroup l) as Hreg.
      destruct (Forall2_lookup_r _ _ _ _ _ Hreg Hp) as (a & Ha & _ & Hga & _).
      destruct (Forall2_lookup_r _ _ _ _ _ Hreg Hq) as (b & Hb & _ & Hgb & _).
      destruct (Forall2_lookup_r _ _ _ _ _ Hreg Hr) as (c & Hc & _ & Hgc & _).
      unfold group in *. rewrite Hga, Hgc in Hsame. rewrite Hgb, Hgc.
      assert (Hab : INextEditorGroup.same (_group a) (_group b) = true).
      { apply (Hcontiguous i j (S j) a b c); [lia | assumption..]. }
      apply same_ref in Hab, Hsame. apply same_ref. congruence. }
  now rewrite Hqr in Hcase.
Qed.

(** The sort puts the entries in the order of their groups, when the
    groups of the entries are among [groups] and the scorer's comparison
    is a consistent one. *)
Lemma sortStage_by_rank editorGroupService query (cache : ScorerCache) kept i j a b :
  let groups := INextEditorGroupsService.getGroups editorGroupService CREATION_TIME in
  truthy (value query) = true ->
  Forall (ranked groups) kept ->
  (forall x y, (doCompareItems x y query true cache <= 0)%Z \/
               (doCompareItems y x query true cache <= 0)%Z) ->
  (forall x y z, (doCompareItems x y query true cache <= 0)%Z ->
                 (doCompareItems y z query true cache <= 0)%Z ->
                 (doCompareItems x z query true cache <= 0)%Z) ->
  (i < j)%nat ->
  sortStage editorGroupService query cache kept !! i = Some a ->
  sortStage editorGroupService query cache kept !! j = Some b ->
  ranked groups a /\
  (indexOf groups (group a) <= indexOf groups (group b))%Z.
Proof.
  intros groups Hq Hranked Htotal Htrans Hij Ha Hb.
  assert (Hsorted_ranked : Forall (ranked groups)
                             (sortStage editorGroupService query cache kept))
    by now rewrite (sortStage_perm _ _ _ kept).
  assert (Ra : ranked groups a).
  { rewrite Forall_lookup in Hsorted_ranked. eauto. }
  split; [exact Ra|].
  unfold sortStage in Ha, Hb. rewrite Hq in Ha, Hb. fold groups in Ha, Hb.
  assert (Hsorted : StronglySorted (before (compareEntries groups query cache))
                      (sort (compareEntries groups query cache) kept)).
  { apply (sort_sorted _ (ranked groups)); [| |assumption].
    - intros x y Rx Ry. apply compareEntries_total; auto.
    - intros x y z Rx Ry Rz. apply compareEntries_trans; auto. }
  eapply before_rank_le; [exact Ra|].
  exact (StronglySorted_lookup _ _ _ _ _ _ Hsorted Hij Ha Hb).
Qed.

Variable getEditorEntries : INextEditorGroupsService.t -> list EditorPickerEntry.t.
Variable editorGroupService : INextEditorGroupsService.t.

(** X6.  For a non-empty query every group gets one label: no entry of
    the model that comes after an entry of its group has a group label or
    a border, and, when the service counts more than one group, every entry
    that no entry of its group precedes has the label of its group, with a
    border unless it is the first entry of the model.  (The candidates'
    groups are among the groups of the service, the candidates come
    without label and border, and the scorer's comparison is a consistent
    one.) *)
Theorem getResults_one_label_per_group searchValue (cache : ScorerCache) :
  truthy (value (prepareQuery searchValue)) = true ->
  let query := prepareQuery searchValue in
  let groups := INextEditorGroupsService.getGroups editorGroupService CREATION_TIME in
  Forall (ranked groups) (getEditorEntries editorGroupService) ->
  Forall unannotated (getEditorEntries editorGroupService) ->
  match getResults getEditorEntries editorGroupService searchValue cache with
  | (None, _) => getEditorEntries editorGroupService = []
  | (Some result, cache') =>
      (forall a b, (doCompareItems a b query true cache' <= 0)%Z \/
                   (doCompareItems b a query true cache' <= 0)%Z) ->
      (forall a b c, (doCompareItems a b query true cache' <= 0)%Z ->
                     (doCompareItems b c query true cache' <= 0)%Z ->
                     (doCompareItems a c query true cache' <= 0)%Z) ->
      (forall i j p r,
         (i < j)%nat -> entries result !! i = Some p -> entries result !! j = Some r ->
         INextEditorGroup.same (group p) (group r) = true ->
         unannotated r) /\
      ((1 < INextEditorGroupsService.count editorGroupService)%nat ->
       forall j r,
         entries result !! j = Some r ->
         (forall i p, (i < j)%nat -> entries result !! i = Some p ->
                      INextEditorGroup.same (group p) (group r) = false) ->
         startsGroup (negb (j =? 0)%nat) r)
  end.
Proof.
  intros Hq query groups Hranked Hfresh. rewrite getResults_stages. fold query.
  destruct (getEditorEntries editorGroupService) as [|e0 rest] eqn:Hentries; [reflexivity|].
  rewrite <- Hentries in *. clear e0 rest Hentries. cbv zeta.
  destruct (filterM (keepEntry query) _ cache) as [kept c1] eqn:Hfilter.
  simpl entries. intros Htotal Htrans.
  assert (Hkept_ranked : Forall (ranked groups) kept).
  { apply (filterM_keepEntry_Forall
             (fun w => 0 <= indexOf groups (snd w))%Z _ _ _ _ _ Hfilter Hranked). }
  pose proof (filterM_keepEntry_unannotated _ _ _ _ _ Hfilter Hfresh) as Hkept_fresh.
  set (sorted := sortStage editorGroupService query c1 kept).
  assert (Hsorted_fresh : Forall unannotated sorted).
  { subst sorted. now rewrite (sortStage_perm _ _ _ kept). }
  assert (Hcontiguous : forall i j k a b c,
     (i < j < k)%nat -> sorted !! i = Some a -> sorted !! j = Some b ->
     sorted !! k = Some c ->
     INextEditorGroup.same (group a) (group c) = true ->
     INextEditorGroup.same (group a) (group b) = true).
  { intros i j k a b c [Hij Hjk] Ha Hb Hc Hac.
    destruct (sortStage_by_rank _ _ _ _ _ _ _ _ Hq Hkept_ranked Htotal Htrans Hij Ha Hb)
      as [Ra Lab].
    destruct (sortStage_by_rank _ _ _ _ _ _ _ _ Hq Hkept_ranked Htotal Htrans Hjk Hb Hc)
      as [_ Lbc].
    pose proof (indexOf_same groups _ _ Hac) as Eac.
    apply (indexOf_inj groups); [exact Ra|]. fold groups in Lab, Lbc. lia. }
  unfold groupStage.
  destruct (1 <? INextEditorGroupsService.count editorGroupService)%nat eqn:Hcount.
  - split.
    + now apply annotate_labels_once.
    + intros _ j r Hr Hfirst. destruct j as [|j].
      * destruct sorted as [|e rest]; [discriminate|].
        apply Forall_cons in Hsorted_fresh as [He _].
        exact (annotate_head None e rest r He Hr).
      * assert (Hq' : exists q, annotate None sorted !! j = Some q).
        { apply lookup_lt_is_Some. apply lookup_lt_Some in Hr. lia. }
        destruct Hq' as [q Hq'].
        pose proof (annotate_adjacent None sorted j q r Hsorted_fresh Hq' Hr) as Hcase.
        now rewrite (Hfirst j q (Nat.lt_succ_diag_r j) Hq') in Hcase.
  - split.
    + intros i j p r _ _ Hr _. rewrite Forall_lookup in Hsorted_fresh. eauto.
    + intros Hmore. apply Nat.ltb_ge in Hcount. lia.
Qed.
End Headers.

Section Pickers.
Import EditorPickerEntry BaseEditorPicker.
Context {scorer : FuzzyScorer}.
Variable editorGroupService : INextEditorGroupsService.t.

Lemma createInstance_unannotated group editors :
  Forall unannotated (map (fun editor => createInstance editor group) editors).
Proof. induction editors; constructor; [now split | assumption]. Qed.

Lemma createInstance_group group editors :
  Forall (fun e => EditorPickerEntry.group e = group)
         (map (fun editor => createInstance editor group) editors).
Proof. induction editors; constructor; [reflexivity | assumption]. Qed.

(** X7.  Whatever the search string, every entry the picker of the active
    group offers is in the active group; when the service counts more than
    one group, the first entry of the model, and no other, has the label of
    the active group, without border; otherwise no entry has a label. *)
Theorem getResults_active_group_header searchValue (cache : ScorerCache) :
  let active := INextEditorGroupsService.activeGroup editorGroupService in
  match fst (ActiveEditorGroupPicker.getResults editorGroupService searchValue cache) with
  | None => INextEditorGroup.getEditors active MOST_RECENTLY_ACTIVE = []
  | Some result =>
      Forall (fun r => group r = active) (entries result) /\
      if (1 <? INextEditorGroupsService.count editorGroupService)%nat then
        (forall r, entries result !! 0%nat = Some r ->
                   groupLabel r = Some (INextEditorGroup.label active) /\
                   showBorder r = Some false) /\
        (forall j r, entries result !! S j = Some r -> unannotated r)
      else Forall unannotated (entries result)
  end.
Proof.
  intros active. unfold ActiveEditorGroupPicker.getResults. rewrite getResults_stages.
  destruct (ActiveEditorGroupPicker.getEditorEntries editorGroupService)
    as [|e0 rest] eqn:Hentries.
  { unfold ActiveEditorGroupPicker.getEditorEntries in Hentries.
    now apply map_eq_nil in Hentries. }
  rewrite <- Hentries. clear e0 rest Hentries. cbv zeta.
  destruct (filterM (keepEntry _) _ cache) as [kept c1] eqn:Hfilter. simpl.
  set (sorted := sortStage editorGroupService (prepareQuery searchValue) c1 kept).
  assert (Hgroup : Forall (fun e => group e = active) sorted).
  { subst sorted. rewrite (sortStage_perm _ _ _ kept).
    apply (filterM_keepEntry_Forall (fun w => snd w = active) _ _ _ _ _ Hfilter).
    apply createInstance_group. }
  assert (Hfresh : Forall unannotated sorted).
  { subst sorted. rewrite (sortStage_perm _ _ _ kept).
    eapply filterM_keepEntry_unannotated; [exact Hfilter|].
    apply createInstance_unannotated. }
  split.
  - apply groupStage_Forall; [|exact Hgroup].
    intros e r (_ & Hg & _). unfold group. now rewrite Hg.
  - unfold groupStage.
    destruct (1 <? INextEditorGroupsService.count editorGroupService)%nat; [|exact Hfresh].
    rewrite (annotate_one_group active sorted Hgroup).
    destruct sorted as [|e rest]; [now split|].
    apply Forall_cons in Hgroup as [He _]. apply Forall_cons in Hfresh as [_ Hrest].
    split.
    + intros r [= <-]. simpl. now rewrite He.
    + intros j r Hr. simpl in Hr. rewrite Forall_lookup in Hrest. eauto.
Qed.

(** The candidates of the picker of all groups, told by the editor and the
    group they wrap. *)
Lemma wrapped_all_entries groups :
  map wrapped
      (flat_map (fun group => map (fun editor => createInstance editor group)
                                  (INextEditorGroup.editors group)) groups)
  = flat_map (fun group => map (fun editor => (editor, group))
                               (INextEditorGroup.editors group)) groups.
Proof.
  induction groups as [|g rest IH]; [reflexivity|].
  simpl. rewrite map_app, IH, map_map. reflexivity.
Qed.

(** X8.  For an empty query the picker of all groups lists the groups in
    the order of [editorGroupService.groups] and, within a group, the
    editors in the order of [group.editors]: every editor of every group,
    each as often as it occurs there.  The answer is [null] exactly when
    that list is empty. *)
Theorem getResults_all_groups_order searchValue (cache : ScorerCache) :
  truthy (value (prepareQuery searchValue)) = false ->
  let listed :=
    flat_map (fun group => map (fun editor => (editor, group))
                               (INextEditorGroup.editors group))
             (INextEditorGroupsService.groups editorGroupService) in
  match fst (AllEditorsPicker.getResults editorGroupService searchValue cache) with
  | None => listed = []
  | Some result => listed <> [] /\ map wrapped (entries result) = listed
  end.
Proof.
  intros Hq listed. unfold AllEditorsPicker.getResults.
  rewrite (getResults_blank _ _ _ _ Hq). simpl. subst listed.
  rewrite <- wrapped_all_entries.
  fold (AllEditorsPicker.getEditorEntries editorGroupService).
  destruct (AllEditorsPicker.getEditorEntries editorGroupService) eqn:Hentries;
    [reflexivity|].
  split; [discriminate|].
  rewrite <- Hentries. simpl. apply groupStage_wrapped.
Qed.

(** The walk over the candidates of the picker of all groups: it labels the
    first editor of every group, the groups being distinct objects. *)
Lemma annotate_headed groups lastGroup :
  NoDup (map INextEditorGroup.ref groups) ->
  match lastGroup with
  | None => True
  | Some g0 => INextEditorGroup.ref g0 ∉ map INextEditorGroup.ref groups
  end ->
  annotate lastGroup
           (flat_map (fun group => map (fun editor => createInstance editor group)
                                       (INextEditorGroup.editors group)) groups)
  = headed (truthyObj lastGroup) groups.
Proof.
  revert lastGroup. induction groups as [|g rest IH]; intros lastGroup Hnodup Hlast;
    [reflexivity|].
  simpl map in Hnodup. apply NoDup_cons in Hnodup as [Hg Hrest].
  assert (Hlast_rest : match lastGroup with
                       | None => True
                       | Some g0 => INextEditorGroup.ref g0 ∉ map INextEditorGroup.ref rest
                       end).
  { destruct lastGroup as [g0|]; [|exact I].
    simpl in Hlast. now apply not_elem_of_cons in Hlast as [_ ?]. }
  simpl flat_map. simpl headed.
  destruct (INextEditorGroup.editors g) as [|editor editors]; [now apply IH|].
  assert (Hchange : match lastGroup with
                    | None => true
                    | Some g0 => negb (INextEditorGroup.same g0 g)
                    end = true).
  { destruct lastGroup as [g0|]; [|reflexivity].
    simpl in Hlast. apply not_elem_of_cons in Hlast as [Hne _].
    apply negb_true_iff. destruct (INextEditorGroup.same g0 g) eqn:Hsame; [|reflexivity].
    now apply same_ref in Hsame. }
  cbn [map app annotate markFirst]. change (group (createInstance editor g)) with g.
  rewrite Hchange. f_equal.
  rewrite annotate_same_group.
  - f_equal. now apply (IH (Some g)).
  - eapply Forall_impl; [apply createInstance_group|].
    intros x ->. apply same_refl.
Qed.

(** X10.  For an empty query, with more than one group in the service and
    the groups distinct objects, the model of the picker of all groups is
    the editors of the groups, group by group, where the first editor of
    every group, and no other, has the label of its group, with a border
    for every group but the first that has an editor. *)
Theorem getResults_all_groups_headers searchValue (cache : ScorerCache) :
  truthy (value (prepareQuery searchValue)) = false ->
  NoDup (map INextEditorGroup.ref (INextEditorGroupsService.groups editorGroupService)) ->
  (1 < INextEditorGroupsService.count editorGroupService)%nat ->
  AllEditorsPicker.getResults editorGroupService searchValue cache =
    (match AllEditorsPicker.getEditorEntries editorGroupService with
     | [] => None
     | _ :: _ =>
         Some {| entries := headed false (INextEditorGroupsService.groups editorGroupService) |}
     end, cache).
Proof.
  intros Hq Hnodup Hmore. unfold AllEditorsPicker.getResults.
  rewrite (getResults_blank _ _ _ _ Hq).
  destruct (AllEditorsPicker.getEditorEntries editorGroupService) eqn:Hentries;
    [reflexivity|].
  rewrite <- Hentries. do 3 f_equal. unfold groupStage.
  apply Nat.ltb_lt in Hmore. rewrite Hmore.
  unfold AllEditorsPicker.getEditorEntries.
  now apply (annotate_headed _ None).
Qed.

Context {presentation : Presentation}.

(** X9.  A search string that is not empty but prepares to the empty query
    is an empty query to [getResults], which offers every candidate in the
    original order and touches no score, and a search to the other methods
    of the picker of the active group: the auto focus is on the first
    entry, whatever the quick-navigate configuration, and the empty label
    is the one for a search without match. *)
Theorem blank_search_is_a_search (getEditorEntries : INextEditorGroupsService.t ->
                                                      list EditorPickerEntry.t)
    searchValue (cache : ScorerCache) (context : AutoFocusContext) :
  searchValue <> "" ->
  truthy (value (prepareQuery searchValue)) = false ->
  (match getResults getEditorEntries editorGroupService searchValue cache with
   | (None, cache') => getEditorEntries editorGroupService = [] /\ cache' = cache
   | (Some result, cache') =>
       Forall2 regrouped (getEditorEntries editorGroupService) (entries result) /\
       cache' = cache
   end) /\
  focusFirst (ActiveEditorGroupPicker.getAutoFocus editorGroupService searchValue context) /\
  ActiveEditorGroupPicker.getEmptyLabel searchValue =
    localize "noResultsFoundInGroup" "No matching opened editor found in group" [] /\
  AllEditorsPicker.getEmptyLabel searchValue =
    localize "noResultsFound" "No matching opened editor found" [].
Proof.
  intros Hs%truthy_nonempty Hq. split; [|split; [|split]].
  - rewrite (getResults_blank _ _ _ _ Hq).
    destruct (getEditorEntries editorGroupService) eqn:Hentries; [now split|].
    rewrite <- Hentries. split; [apply groupStage_regrouped | reflexivity].
  - unfold ActiveEditorGroupPicker.getAutoFocus. rewrite Hs. now repeat split.
  - unfold ActiveEditorGroupPicker.getEmptyLabel. now rewrite Hs.
  - unfold AllEditorsPicker.getEmptyLabel. now rewrite Hs.
Qed.
End Pickers.

Section AcrossGroups.
Import EditorPickerEntry BaseEditorPicker.
Context {scorer : FuzzyScorer}.

(** X11.  Between two entries of different groups the sort callback
    answers [groups.indexOf(e1.group) - groups.indexOf(e2.group)], whatever
    the query and the cache; the answer changes sign when the entries
    change places, and it is zero only when neither group is in the list of
    groups. *)
Theorem compareEntries_across_groups (groups : list INextEditorGroup.t)
    (query query' : IPreparedQuery) (cache cache' : ScorerCache)
    (e1 e2 : EditorPickerEntry.t) :
  INextEditorGroup.same (group e1) (group e2) = false ->
  compareEntries groups query cache e1 e2
    = (indexOf groups (group e1) - indexOf groups (group e2))%Z /\
  compareEntries groups query cache e1 e2
    = (- compareEntries groups query cache e2 e1)%Z /\
  compareEntries groups query cache e1 e2 = compareEntries groups query' cache' e1 e2 /\
  (compareEntries groups query cache e1 e2 = 0%Z <->
   indexOf groups (group e1) = (-1)%Z /\ indexOf groups (group e2) = (-1)%Z).
Proof.
  intros Hother. pose proof Hother as Hother'. rewrite same_sym in Hother'.
  rewrite !(compareEntries_other _ _ _ e1 e2 Hother),
          (compareEntries_other _ _ _ e2 e1 Hother').
  split; [reflexivity|]. split; [lia|]. split; [reflexivity|].
  split; [|lia].
  intros Hzero.
  destruct (indexOfFrom_range groups (group e1) 0) as [H1|H1]; fold (indexOf groups (group e1)) in H1.
  - lia.
  - exfalso. assert (Heq : indexOf groups (group e1) = indexOf groups (group e2)) by lia.
    apply indexOf_inj in Heq; [congruence | exact H1].
Qed.
End AcrossGroups.

Section Examples.
#[local] Existing Instance Fixture.substringScorer.

(** The three editors [foo.txt], [bar.txt] (first group) and [foobar.txt]
    (second group), queried for "foo": [bar.txt] is dropped, the first
    group comes first, and both entries start a group, the second with a
    border. *)
Example getResults_foo :
  (let (result, _) := AllEditorsPicker.getResults Fixture.workbench "foo" ∅ in
   match result with
   | Some result =>
       map (fun r => (wrapped r, EditorPickerEntry.groupLabel r,
                      EditorPickerEntry.showBorder r))
           (entries result)
   | None => []
   end)
  = [((Fixture.fooTxt, Fixture.group1), Some "Group 1", Some false);
     ((Fixture.foobarTxt, Fixture.group2), Some "Group 2", Some true)].
Proof. vm_compute. reflexivity. Qed.

Lemma getResults_keeps_the_matches_witness :
  exists result cache',
    let query := prepareQuery "foo" in
    let candidates := AllEditorsPicker.getEditorEntries Fixture.workbench in
    truthy (value query) = true /\
    AllEditorsPicker.getResults Fixture.workbench "foo" ∅ = (Some result, cache') /\
    Forall (fun r =>
              score (cachedScore query cache' r) <> 0%Z /\
              EditorPickerEntry.labelHighlights r
                = Some (labelMatch (cachedScore query cache' r)) /\
              EditorPickerEntry.descriptionHighlights r
                = Some (descriptionMatch (cachedScore query cache' r)))
           (entries result) /\
    map wrapped (entries result)
      ≡ₚ map wrapped (List.filter (matches query cache') candidates) /\
    (forall e, e ∈ candidates -> score (cachedScore query cache' e) = 0%Z ->
               wrapped e ∉ map wrapped (entries result)) /\
    (forall pre e post, candidates = pre ++ e :: post ->
       cachedScore query
         (snd (filterM (BaseEditorPicker.keepEntry query) pre ∅)) e
       = cachedScore query cache' e).
Proof.
  pose proof (getResults_keeps_the_matches AllEditorsPicker.getEditorEntries
                Fixture.workbench "foo" ∅ eq_refl) as Hkeeps.
  cbv zeta in Hkeeps. unfold AllEditorsPicker.getResults.
  destruct (BaseEditorPicker.getResults _ _ _ _) as [[result|] cache'];
    [|destruct Hkeeps as [Hnone _]; discriminate Hnone].
  exists result, cache'. cbv zeta. split; [reflexivity|]. split; [reflexivity|].
  exact Hkeeps.
Defined.

Lemma getResults_blank_query_witness :
  whitespaceOnly "  " = true /\
  exists result,
    ActiveEditorGroupPicker.getResults (scorer := Fixture.substringScorer)
      Fixture.workbench "  " ∅ = (result, ∅) /\
    match result with
    | None => ActiveEditorGroupPicker.getEditorEntries Fixture.workbench = []
    | Some model =>
        ActiveEditorGroupPicker.getEditorEntries Fixture.workbench <> [] /\
        Forall2 regrouped (ActiveEditorGroupPicker.getEditorEntries Fixture.workbench)
                (entries model) /\
        (Forall (fun e => EditorPickerEntry.labelHighlights e = None /\
                          EditorPickerEntry.descriptionHighlights e = None)
                (ActiveEditorGroupPicker.getEditorEntries Fixture.workbench) ->
         Forall (fun r => EditorPickerEntry.labelHighlights r = None /\
                          EditorPickerEntry.descriptionHighlights r = None)
                (entries model))
    end.
Proof.
  split; [reflexivity|].
  exact (getResults_blank_query (scorer := Fixture.substringScorer)
           ActiveEditorGroupPicker.getEditorEntries Fixture.workbench "  " ∅ eq_refl).
Defined.

Lemma scoreIn_cachedScore query (cache : ScorerCache) (e : EditorPickerEntry.t) :
  score (cachedScore query cache e)
  = Fixture.scoreIn cache (viewOf EditorPickerEntry.QuickOpenItemAccessor e) query true.
Proof.
  unfold cachedScore, scoreItem, Fixture.scoreIn. simpl.
  now destruct (cache !! _).
Qed.

Lemma getResults_sorted_by_group_then_score_witness :
  exists result cache',
    let query := prepareQuery "bar" in
    let groups := INextEditorGroupsService.getGroups Fixture.workbench3 CREATION_TIME in
    truthy (value query) = true /\
    Forall (ranked groups) (AllEditorsPicker.getEditorEntries Fixture.workbench3) /\
    map wrapped (AllEditorsPicker.getEditorEntries Fixture.workbench3)
      = [(Fixture.foobarTxt, Fixture.group3); (Fixture.fooTxt, Fixture.group3);
         (Fixture.barTxt, Fixture.group3); (Fixture.fooTxt, Fixture.group1);
         (Fixture.barTxt, Fixture.group1)] /\
    AllEditorsPicker.getResults Fixture.workbench3 "bar" ∅ = (Some result, cache') /\
    map (fun r => (wrapped r, score (cachedScore query cache' r))) (entries result)
      = [((Fixture.barTxt, Fixture.group1), 100%Z);
         ((Fixture.barTxt, Fixture.group3), 100%Z);
         ((Fixture.foobarTxt, Fixture.group3), 97%Z)] /\
    map wrapped (entries result)
      ≡ₚ map wrapped (List.filter (matches query cache')
                         (AllEditorsPicker.getEditorEntries Fixture.workbench3)) /\
    (forall i j ri rj,
       (i < j)%nat -> entries result !! i = Some ri -> entries result !! j = Some rj ->
       if INextEditorGroup.same (EditorPickerEntry.group ri) (EditorPickerEntry.group rj)
       then (compareItemsByScore ri rj query true
               EditorPickerEntry.QuickOpenItemAccessor cache' <= 0)%Z
       else (indexOf groups (EditorPickerEntry.group ri)
             < indexOf groups (EditorPickerEntry.group rj))%Z) /\
    (forall i j k ri rj rk,
       (i < j < k)%nat ->
       entries result !! i = Some ri -> entries result !! j = Some rj ->
       entries result !! k = Some rk ->
       INextEditorGroup.same (EditorPickerEntry.group ri) (EditorPickerEntry.group rk) = true ->
       INextEditorGroup.same (EditorPickerEntry.group ri) (EditorPickerEntry.group rj) = true) /\
    (forall i j ri rj,
       (i < j)%nat -> entries result !! i = Some ri -> entries result !! j = Some rj ->
       INextEditorGroup.same (EditorPickerEntry.group ri) (EditorPickerEntry.group rj) = true ->
       (score (cachedScore query cache' rj) <= score (cachedScore query cache' ri))%Z).
Proof.
  assert (Hranked : Forall (ranked (INextEditorGroupsService.getGroups Fixture.workbench3
                                      CREATION_TIME))
                           (AllEditorsPicker.getEditorEntries Fixture.workbench3)).
  { repeat constructor; unfold ranked; vm_compute; discriminate. }
  pose proof (getResults_sorted_by_group_then_score AllEditorsPicker.getEditorEntries
                Fixture.workbench3 "bar" ∅ eq_refl Hranked) as Hsorted.
  cbv zeta in Hsorted. unfold AllEditorsPicker.getResults.
  destruct (BaseEditorPicker.getResults _ _ _ _) as [[result|] cache'] eqn:Hrun;
    [|destruct Hsorted as [Hnone _]; discriminate Hnone].
  exists result, cache'. cbv zeta. split; [reflexivity|]. split; [exact Hranked|].
  split; [reflexivity|]. split; [reflexivity|].
  split.
  { vm_compute in Hrun. injection Hrun as <- <-. vm_compute. reflexivity. }
  destruct Hsorted as [Hperm Hsorted]. split; [exact Hperm|].
  destruct Hsorted as (Hpairs & Hcontiguous & Hdescending).
  - intros a b. simpl. lia.
  - intros a b c. simpl. lia.
  - split; [exact Hpairs|]. split; [exact Hcontiguous|].
    apply Hdescending. intros a b. rewrite !scoreIn_cachedScore.
    unfold compareItemsByScore. simpl. lia.
Defined.

(** C5, as the claim states it, fails: the group fails to open the editor,
    and [run] answers [true]. *)
Lemma run_open_hides_a_failed_open :
  let e := EditorPickerEntry.createInstance Fixture.fooTxt Fixture.group1 in
  EditorPickerEntry.succeeded
    (fst (EditorPickerEntry.openEditor (Host := Fixture.failingHost)
            (EditorPickerEntry.group e) (EditorPickerEntry.editor e) [])) = false /\
  fst (EditorPickerEntry.run (host := Fixture.failingHost) e OPEN tt []) = true.
Proof. split; reflexivity. Qed.

Example run_open_delegates :
  EditorPickerEntry.run (host := Fixture.openingHost)
    (EditorPickerEntry.createInstance Fixture.fooTxt Fixture.group1) OPEN tt []
  = (true, ["foo.txt"]).
Proof. reflexivity. Qed.

(** C6, as the claim states it, fails, whatever the scorer: [foo.txt] is
    shown in two groups, and when the filter of a query issued after
    [onClose] reaches its second entry, the cache holds the score of the
    first under the same key; the second entry is not scored again. *)
Lemma query_after_onClose_finds_a_score :
  let query := prepareQuery "foo" in
  let shown :=
    [EditorPickerEntry.createInstance Fixture.foobarTxt Fixture.group3;
     EditorPickerEntry.createInstance Fixture.fooTxt Fixture.group3;
     EditorPickerEntry.createInstance Fixture.barTxt Fixture.group3] in
  let again := EditorPickerEntry.createInstance Fixture.fooTxt Fixture.group1 in
  let later := [EditorPickerEntry.createInstance Fixture.barTxt Fixture.group1] in
  AllEditorsPicker.getEditorEntries Fixture.workbench3 = shown ++ again :: later /\
  ~ exists (someScorer : FuzzyScorer) (cache : ScorerCache),
      snd (filterM (BaseEditorPicker.keepEntry (scorer := someScorer) query) shown
                   (snd (BaseEditorPicker.onClose true cache)))
        !! entryKey (scorer := someScorer) query again = None.
Proof.
  cbv zeta. split; [reflexivity|].
  intros (someScorer & cache & Hmiss).
  destruct (filterM (BaseEditorPicker.keepEntry (scorer := someScorer)
                       (prepareQuery "foo")) _ _) as [kept reached] eqn:Hfilter
    in Hmiss.
  assert (Hfound : is_Some (reached !! entryKey (scorer := someScorer) (prepareQuery "foo")
                              (EditorPickerEntry.createInstance Fixture.fooTxt
                                 Fixture.group3))).
  { eapply (filterM_keepEntry_stores (scorer := someScorer)); [reflexivity| |exact Hfilter].
    apply list_elem_of_further, list_elem_of_here. }
  simpl in Hmiss.
  change (entryKey (scorer := someScorer) (prepareQuery "foo")
            (EditorPickerEntry.createInstance Fixture.fooTxt Fixture.group1))
    with (entryKey (scorer := someScorer) (prepareQuery "foo")
            (EditorPickerEntry.createInstance Fixture.fooTxt Fixture.group3)) in Hmiss.
  rewrite Hmiss in Hfound. now destruct Hfound.
Qed.

Lemma onClose_then_query_rescored_witness :
  let stale := snd (AllEditorsPicker.getResults Fixture.workbench3 "foo" ∅) in
  let query := prepareQuery "foo" in
  let first := EditorPickerEntry.createInstance Fixture.foobarTxt Fixture.group3 in
  let shown :=
    [first;
     EditorPickerEntry.createInstance Fixture.fooTxt Fixture.group3;
     EditorPickerEntry.createInstance Fixture.barTxt Fixture.group3] in
  let again := EditorPickerEntry.createInstance Fixture.fooTxt Fixture.group1 in
  let later := [EditorPickerEntry.createInstance Fixture.barTxt Fixture.group1] in
  let closed := snd (BaseEditorPicker.onClose true stale) in
  let reached := snd (filterM (BaseEditorPicker.keepEntry query) shown closed) in
  (is_Some (stale !! entryKey query first) /\ is_Some (stale !! entryKey query again)) /\
  AllEditorsPicker.getEditorEntries Fixture.workbench3 = shown ++ again :: later /\
  closed = ∅ /\
  (closed !! entryKey query first = None /\
   scoreItem first query true EditorPickerEntry.QuickOpenItemAccessor closed =
     (doScoreItem (viewOf EditorPickerEntry.QuickOpenItemAccessor first) query true,
      <[entryKey query first :=
          doScoreItem (viewOf EditorPickerEntry.QuickOpenItemAccessor first) query true]>
        closed)) /\
  (forall cached,
     reached !! entryKey query again = Some cached ->
     exists e', e' ∈ shown /\ entryKey query e' = entryKey query again /\
                cached = doScoreItem (viewOf EditorPickerEntry.QuickOpenItemAccessor e')
                           query true) /\
  (truthy (value query) = true ->
   exists e', e' ∈ AllEditorsPicker.getEditorEntries Fixture.workbench3 /\
              entryKey query e' = entryKey query again /\
              snd (AllEditorsPicker.getResults Fixture.workbench3 "foo" closed)
                !! entryKey query again
              = Some (doScoreItem (viewOf EditorPickerEntry.QuickOpenItemAccessor e')
                        query true)).
Proof.
  cbv zeta.
  split; [split; vm_compute; eauto|].
  split; [reflexivity|].
  destruct (onClose_then_query_rescored true
              (snd (AllEditorsPicker.getResults Fixture.workbench3 "foo" ∅))
              AllEditorsPicker.getEditorEntries Fixture.workbench3 "foo"
              [] (EditorPickerEntry.createInstance Fixture.foobarTxt Fixture.group3) _ eq_refl)
    as (_ & Hfirst & _).
  destruct (onClose_then_query_rescored true
              (snd (AllEditorsPicker.getResults Fixture.workbench3 "foo" ∅))
              AllEditorsPicker.getEditorEntries Fixture.workbench3 "foo"
              _ (EditorPickerEntry.createInstance Fixture.fooTxt Fixture.group1) _ eq_refl)
    as (Hclosed & _ & Hfound & Hleft).
  split; [exact Hclosed|]. split; [|split; [exact Hfound | exact Hleft]].
  apply Hfirst. apply not_elem_of_nil.
Defined.

Lemma not_shiftNavigate_ctrlTab :
  ~ shiftNavigate {| keybindings := [Fixture.ctrlTab; Fixture.shiftChord] |}.
Proof.
  intros (k & Hin & Hchord & Hshift). simpl in Hin.
  apply elem_of_cons in Hin as [->|Hin]; [discriminate|].
  apply elem_of_cons in Hin as [->|Hin]; [discriminate|].
  now apply elem_of_nil in Hin.
Qed.

Lemma shiftNavigate_ctrlShiftTab :
  shiftNavigate {| keybindings := [Fixture.ctrlTab; Fixture.ctrlShiftTab] |}.
Proof.
  exists Fixture.ctrlShiftTab. split; [|now split].
  simpl. apply list_elem_of_further, list_elem_of_here.
Qed.

Lemma getAutoFocus_active_group_witness :
  focusFirst (ActiveEditorGroupPicker.getAutoFocus Fixture.workbench "foo"
                (Fixture.navigating [Fixture.ctrlShiftTab])) /\
  focusFirst (ActiveEditorGroupPicker.getAutoFocus Fixture.workbench ""
                Fixture.notNavigating) /\
  focusLast (ActiveEditorGroupPicker.getAutoFocus Fixture.workbench ""
               (Fixture.navigating [Fixture.ctrlTab; Fixture.ctrlShiftTab])) /\
  focusSecond (ActiveEditorGroupPicker.getAutoFocus Fixture.workbench ""
                 (Fixture.navigating [Fixture.ctrlTab; Fixture.shiftChord])) /\
  focusFirst (ActiveEditorGroupPicker.getAutoFocus Fixture.workbench2 ""
                (Fixture.navigating [Fixture.ctrlTab; Fixture.shiftChord])).
Proof.
  split; [|split; [|split; [|split]]].
  - apply (getAutoFocus_active_group Fixture.workbench "foo"). left. discriminate.
  - apply (getAutoFocus_active_group Fixture.workbench "" Fixture.notNavigating).
    now right.
  - eapply (getAutoFocus_active_group Fixture.workbench "");
      [reflexivity | reflexivity | apply shiftNavigate_ctrlShiftTab].
  - eapply (getAutoFocus_active_group Fixture.workbench "");
      [reflexivity | reflexivity | apply not_shiftNavigate_ctrlTab | simpl; lia].
  - eapply (getAutoFocus_active_group Fixture.workbench2 "");
      [reflexivity | reflexivity | apply not_shiftNavigate_ctrlTab | reflexivity].
Defined.

(** C9, as the claim states it, fails whatever the handler answers: two
    workbenches that differ in their active group only are one to the
    handler, and two to the picker of the active group. *)
Lemma getAutoFocus_all_groups_ignores_the_active_group :
  ~ exists handler : QuickOpenHandler,
      forall editorGroupService context,
        AllEditorsPicker.getAutoFocus (handler := handler) editorGroupService "" context
        = ActiveEditorGroupPicker.getAutoFocus editorGroupService "" context.
Proof.
  intros (handler & Hsame).
  pose proof (Hsame Fixture.workbench (Fixture.navigating [Fixture.ctrlTab])) as H1.
  pose proof (Hsame Fixture.workbench2 (Fixture.navigating [Fixture.ctrlTab])) as H2.
  unfold AllEditorsPicker.getAutoFocus in H1, H2. simpl in H1, H2.
  rewrite H1 in H2. discriminate.
Qed.

Lemma getAutoFocus_all_groups_witness :
  focusFirst (AllEditorsPicker.getAutoFocus (handler := Fixture.plainHandler)
                Fixture.workbench "foo" (Fixture.navigating [Fixture.ctrlTab])) /\
  AllEditorsPicker.getAutoFocus (handler := Fixture.plainHandler)
    Fixture.workbench "" (Fixture.navigating [Fixture.ctrlTab])
  = {| autoFocusFirstEntry := None; autoFocusSecondEntry := None;
       autoFocusLastEntry := None |} /\
  AllEditorsPicker.getAutoFocus (handler := Fixture.plainHandler)
    Fixture.workbench2 "" (Fixture.navigating [Fixture.ctrlTab])
  = AllEditorsPicker.getAutoFocus (handler := Fixture.plainHandler)
      Fixture.workbench "" (Fixture.navigating [Fixture.ctrlTab]).
Proof.
  split; [|split].
  - apply (getAutoFocus_all_groups (handler := Fixture.plainHandler) Fixture.workbench "foo").
    discriminate.
  - apply (getAutoFocus_all_groups (handler := Fixture.plainHandler) Fixture.workbench "").
    reflexivity.
  - apply (getAutoFocus_all_groups (handler := Fixture.plainHandler) Fixture.workbench "").
    reflexivity.
Defined.

Lemma getResults_most_recently_active_witness :
  whitespaceOnly "" = true /\
  exists model,
    ActiveEditorGroupPicker.getResults Fixture.workbench "" ∅ = (Some model, ∅) /\
    map EditorPickerEntry.editor (entries model) = [Fixture.barTxt; Fixture.fooTxt] /\
    Forall (fun r => EditorPickerEntry.group r = Fixture.group1) (entries model).
Proof.
  split; [reflexivity|].
  destruct (getResults_most_recently_active Fixture.workbench "" ∅)
    as (_ & _ & Hquery).
  destruct (Hquery eq_refl) as (result & Hrun & Hresult).
  destruct result as [model|]; [|discriminate Hresult].
  exists model. split; [exact Hrun|].
  destruct Hresult as (Heditors & Hgroups & _). now split.
Defined.
End Examples.

Section FurtherExamples.
#[local] Existing Instance Fixture.substringScorer.
#[local] Existing Instance Fixture.plainPresentation.

Lemma getResults_empty_model_witness :
  truthy (value (prepareQuery "zip")) = true /\
  AllEditorsPicker.getEditorEntries Fixture.workbench <> [] /\
  exists cache',
    AllEditorsPicker.getResults Fixture.workbench "zip" ∅
      = (Some {| entries := [] |}, cache') /\
    Forall (fun e => matches (prepareQuery "zip") cache' e = false)
           (AllEditorsPicker.getEditorEntries Fixture.workbench).
Proof.
  assert (Hsome : AllEditorsPicker.getEditorEntries Fixture.workbench <> [])
    by discriminate.
  split; [reflexivity|]. split; [exact Hsome|].
  pose proof (getResults_empty_model AllEditorsPicker.getEditorEntries Fixture.workbench
                "zip" ∅ eq_refl Hsome) as Hempty.
  unfold AllEditorsPicker.getResults.
  destruct (BaseEditorPicker.getResults _ _ _ _) as [[result|] cache'] eqn:Hrun;
    [|destruct Hempty].
  assert (Hnil : entries result = []).
  { apply (f_equal fst) in Hrun. vm_compute in Hrun. now injection Hrun as <-. }
  exists cache'. destruct result as [l]. simpl in Hnil. subst l.
  split; [reflexivity|]. now apply Hempty.
Defined.

Lemma getResults_one_label_per_group_witness :
  let query := prepareQuery "txt" in
  let groups := INextEditorGroupsService.getGroups Fixture.workbench CREATION_TIME in
  truthy (value query) = true /\
  Forall (ranked groups) (AllEditorsPicker.getEditorEntries Fixture.workbench) /\
  Forall unannotated (AllEditorsPicker.getEditorEntries Fixture.workbench) /\
  exists result cache',
    AllEditorsPicker.getResults Fixture.workbench "txt" ∅ = (Some result, cache') /\
    length (entries result) = 3%nat /\
    (forall i j p r,
       (i < j)%nat -> entries result !! i = Some p -> entries result !! j = Some r ->
       INextEditorGroup.same (EditorPickerEntry.group p) (EditorPickerEntry.group r) = true ->
       unannotated r) /\
    ((1 < INextEditorGroupsService.count Fixture.workbench)%nat ->
     forall j r,
       entries result !! j = Some r ->
       (forall i p, (i < j)%nat -> entries result !! i = Some p ->
                    INextEditorGroup.same (EditorPickerEntry.group p)
                                          (EditorPickerEntry.group r) = false) ->
       startsGroup (negb (j =? 0)%nat) r).
Proof.
  cbv zeta.
  assert (Hranked : Forall (ranked (INextEditorGroupsService.getGroups Fixture.workbench
                                      CREATION_TIME))
                           (AllEditorsPicker.getEditorEntries Fixture.workbench)).
  { repeat constructor; unfold ranked; vm_compute; discriminate. }
  assert (Hfresh : Forall unannotated (AllEditorsPicker.getEditorEntries Fixture.workbench))
    by (repeat constructor).
  split; [reflexivity|]. split; [exact Hranked|]. split; [exact Hfresh|].
  pose proof (getResults_one_label_per_group AllEditorsPicker.getEditorEntries
                Fixture.workbench "txt" ∅ eq_refl Hranked Hfresh) as Hlabels.
  cbv zeta in Hlabels. unfold AllEditorsPicker.getResults.
  destruct (BaseEditorPicker.getResults _ _ _ _) as [[result|] cache'] eqn:Hrun;
    [|discriminate Hlabels].
  exists result, cache'. split; [reflexivity|].
  split.
  { apply (f_equal fst) in Hrun. vm_compute in Hrun. now injection Hrun as <-. }
  apply Hlabels.
  - intros a b. simpl. lia.
  - intros a b c. simpl. lia.
Defined.

Lemma getAutoFocus_active_group_one_target_witness :
  (let focus := ActiveEditorGroupPicker.getAutoFocus Fixture.emptyWorkbench ""
                  (Fixture.navigating [Fixture.ctrlTab; Fixture.shiftChord]) in
   autoFocusFirstEntry focus = Some false /\
   autoFocusSecondEntry focus = Some false /\
   autoFocusLastEntry focus = None /\
   ~ focusFirst focus /\ ~ focusSecond focus /\ ~ focusLast focus) /\
  (let focus := ActiveEditorGroupPicker.getAutoFocus Fixture.workbench ""
                  (Fixture.navigating [Fixture.ctrlTab; Fixture.shiftChord]) in
   (focusFirst focus /\ ~ focusSecond focus /\ ~ focusLast focus) \/
   (focusSecond focus /\ ~ focusFirst focus /\ ~ focusLast focus) \/
   (focusLast focus /\ ~ focusFirst focus /\ ~ focusSecond focus)).
Proof.
  split; cbv zeta.
  - apply (getAutoFocus_active_group_one_target Fixture.emptyWorkbench ""
             (Fixture.navigating [Fixture.ctrlTab; Fixture.shiftChord])).
    split; [reflexivity|]. split; [|reflexivity].
    eexists. split; [reflexivity | apply not_shiftNavigate_ctrlTab].
  - apply (getAutoFocus_active_group_one_target Fixture.workbench ""
             (Fixture.navigating [Fixture.ctrlTab; Fixture.shiftChord])).
    intros (_ & _ & Hcount). discriminate Hcount.
Defined.

Lemma getResults_all_groups_order_witness :
  truthy (value (prepareQuery " ")) = false /\
  exists result,
    fst (AllEditorsPicker.getResults Fixture.workbench " " ∅) = Some result /\
    map wrapped (entries result)
    = [(Fixture.foobarTxt, Fixture.group2); (Fixture.fooTxt, Fixture.group1);
       (Fixture.barTxt, Fixture.group1)].
Proof.
  split; [reflexivity|].
  pose proof (getResults_all_groups_order Fixture.workbench " " ∅ eq_refl) as Horder.
  cbv zeta in Horder.
  destruct (fst (AllEditorsPicker.getResults Fixture.workbench " " ∅)) as [result|];
    [|discriminate Horder].
  exists result. split; [reflexivity | apply Horder].
Defined.

Lemma getResults_all_groups_headers_witness :
  truthy (value (prepareQuery "")) = false /\
  NoDup (map INextEditorGroup.ref (INextEditorGroupsService.groups Fixture.workbench)) /\
  (1 < INextEditorGroupsService.count Fixture.workbench)%nat /\
  AllEditorsPicker.getResults Fixture.workbench "" ∅ =
    (Some {| entries :=
               [EditorPickerEntry.setShowBorder
                  (EditorPickerEntry.setGroupLabel
                     (EditorPickerEntry.createInstance Fixture.foobarTxt Fixture.group2)
                     "Group 2") false;
                EditorPickerEntry.setShowBorder
                  (EditorPickerEntry.setGroupLabel
                     (EditorPickerEntry.createInstance Fixture.fooTxt Fixture.group1)
                     "Group 1") true;
                EditorPickerEntry.createInstance Fixture.barTxt Fixture.group1] |}, ∅).
Proof.
  assert (Hnodup : NoDup (map INextEditorGroup.ref
                            (INextEditorGroupsService.groups Fixture.workbench))).
  { apply (bool_decide_unpack _). vm_compute. exact I. }
  assert (Hmore : (1 < INextEditorGroupsService.count Fixture.workbench)%nat)
    by (simpl; lia).
  split; [reflexivity|]. split; [exact Hnodup|]. split; [exact Hmore|].
  exact (getResults_all_groups_headers Fixture.workbench "" ∅ eq_refl Hnodup Hmore).
Defined.

Lemma blank_search_is_a_search_witness :
  " " <> "" /\
  truthy (value (prepareQuery " ")) = false /\
  (exists result,
     ActiveEditorGroupPicker.getResults Fixture.workbench " " ∅ = (Some result, ∅) /\
     Forall2 regrouped (ActiveEditorGroupPicker.getEditorEntries Fixture.workbench)
             (entries result)) /\
  focusFirst (ActiveEditorGroupPicker.getAutoFocus Fixture.workbench " "
                (Fixture.navigating [Fixture.ctrlShiftTab])) /\
  ActiveEditorGroupPicker.getEmptyLabel " " = "No matching opened editor found in group" /\
  AllEditorsPicker.getEmptyLabel " " = "No matching opened editor found".
Proof.
  assert (Hs : " " <> "") by discriminate.
  split; [exact Hs|]. split; [reflexivity|].
  destruct (blank_search_is_a_search Fixture.workbench
              ActiveEditorGroupPicker.getEditorEntries " " ∅
              (Fixture.navigating [Fixture.ctrlShiftTab]) Hs eq_refl)
    as (Hrun & Hfocus & Hlabel & Hlabel').
  split; [|split; [exact Hfocus | split; [exact Hlabel | exact Hlabel']]].
  unfold ActiveEditorGroupPicker.getResults.
  destruct (BaseEditorPicker.getResults _ _ _ _) as [[result|] cache'].
  - destruct Hrun as [Hreg ->]. now exists result.
  - destruct Hrun as [Hnone _]. discriminate Hnone.
Defined.

Lemma compareEntries_across_groups_witness :
  let foo := EditorPickerEntry.createInstance Fixture.fooTxt Fixture.group1 in
  let foobar := EditorPickerEntry.createInstance Fixture.foobarTxt Fixture.group2 in
  let bar3 := EditorPickerEntry.createInstance Fixture.barTxt Fixture.group3 in
  INextEditorGroup.same (EditorPickerEntry.group foo) (EditorPickerEntry.group foobar)
    = false /\
  INextEditorGroup.same (EditorPickerEntry.group foo) (EditorPickerEntry.group bar3)
    = false /\
  BaseEditorPicker.compareEntries [Fixture.group1; Fixture.group2; Fixture.group3]
    (prepareQuery "foo") ∅ foo bar3 = (0 - 2)%Z /\
  BaseEditorPicker.compareEntries [Fixture.group1; Fixture.group2; Fixture.group3]
    (prepareQuery "foo") ∅ bar3 foo = 2%Z /\
  BaseEditorPicker.compareEntries [Fixture.group1; Fixture.group2]
    (prepareQuery "foo") ∅ foobar bar3 = (1 - -1)%Z /\
  BaseEditorPicker.compareEntries [] (prepareQuery "foo") ∅ foo foobar = 0%Z.
Proof.
  cbv zeta.
  pose proof (compareEntries_across_groups
                [Fixture.group1; Fixture.group2; Fixture.group3]
                (prepareQuery "foo") (prepareQuery "foo") ∅ ∅
                (EditorPickerEntry.createInstance Fixture.fooTxt Fixture.group1)
                (EditorPickerEntry.createInstance Fixture.barTxt Fixture.group3)
                eq_refl) as (Hdiff & Hsign & _ & _).
  pose proof (compareEntries_across_groups [Fixture.group1; Fixture.group2]
                (prepareQuery "foo") (prepareQuery "foo") ∅ ∅
                (EditorPickerEntry.createInstance Fixture.foobarTxt Fixture.group2)
                (EditorPickerEntry.createInstance Fixture.barTxt Fixture.group3)
                eq_refl) as (Hmissing & _ & _ & _).
  pose proof (compareEntries_across_groups []
                (prepareQuery "foo") (prepareQuery "foo") ∅ ∅
                (EditorPickerEntry.createInstance Fixture.fooTxt Fixture.group1)
                (EditorPickerEntry.createInstance Fixture.foobarTxt Fixture.group2)
                eq_refl) as (_ & _ & _ & Hzero).
  split; [reflexivity|]. split; [reflexivity|].
  split; [exact Hdiff|]. split; [|split; [exact Hmissing|]].
  - match type of Hsign with
    | ?a = _ => assert (Ha : a = (-2)%Z) by (rewrite Hdiff; reflexivity);
                rewrite Ha in Hsign
    end.
    lia.
  - apply Hzero. split; reflexivity.
Defined.
End FurtherExamples.
